(** * Shakespeare GA front-end: the evolution-session controller and the
      fitness chart, embedded from [App.tsx], [services/api.ts] and
      [components/FitnessChart.tsx].

    The controller is asynchronous JavaScript running on one event loop.
    It is embedded as a transition system over a [World]: the React state,
    the interval handle kept in [evolutionIntervalRef], the table of live
    intervals of the runtime, the table of remote calls still awaiting an
    answer (each with the continuation that follows its [await]), the log
    of remote calls issued so far and the console.  One [Event] is one
    macrotask of the event loop: a button handler, one firing of an
    interval, or the settlement of one outstanding remote call.

    JavaScript [number]s are embedded as exact rationals; the controller
    only copies them, the chart divides and multiplies them. *)

From Stdlib Require Import QArith Qround Qminmax Lqa.
From stdpp Require Import gmap strings list fin_maps.

Local Open Scope string_scope.
Local Open Scope list_scope.

Definition number := Q.

(** ** Wire types ([services/api.ts]) *)

Record Individual := mkIndividual {
  genes : string;
  fitness : number }.

Record Statistics := mkStatistics {
  stat_generation : number;
  stat_best_fitness : number;
  stat_avg_fitness : number;
  stat_worst_fitness : number }.

Record HistoryEntry := mkHistoryEntry {
  generation : number;
  best_fitness : number;
  avg_fitness : number }.

Record GAConfig := mkGAConfig {
  cfg_population_size : number;
  cfg_mutation_rate : number;
  cfg_crossover_rate : number;
  cfg_elitism_count : number }.

Record InitializePayload := mkInitializePayload {
  target : string;
  population_size : number;
  mutation_rate : number;
  crossover_rate : number;
  elitism_count : number }.

(** The body of a successful [/evolve] answer. *)
Record EvolveData := mkEvolveData {
  top_individuals : list Individual;
  statistics : Statistics;
  is_complete : bool }.

(** The remote operations the controller issues through [gaAPI]. *)
Inductive Call :=
| ApiInitialize (payload : InitializePayload)
| ApiEvolve (generations : nat)
| ApiGetHistory
| ApiGetBest
| ApiReset
| ApiHealthCheck.

(** What a settled call carries: the [data] of a fulfilled promise, or the
    thrown value of a rejected one ([error: any], read through [.message]). *)
Inductive Payload :=
| DataInit (initial_population : list Individual)
| DataEvolve (d : EvolveData)
| DataHistory (h : list HistoryEntry)
| DataBest (b : Individual)
| DataNone.

Record JsError := mkJsError { message : option string }.

Inductive Outcome :=
| Fulfilled (p : Payload)
| Rejected (e : JsError).

(** [error.message || fallback]: an absent or empty message is falsy. *)
Definition message_or (e : JsError) (fallback : string) : string :=
  match message e with
  | Some m => if String.eqb m "" then fallback else m
  | None => fallback
  end.

(** ** Session state ([AppState] of [App.tsx]) *)

Record AppState := mkAppState {
  isInitialized : bool;
  isRunning : bool;
  st_generation : number;
  st_target : string;
  population : list Individual;
  bestEver : option Individual;
  averageFitness : number;
  isComplete : bool;
  history : list HistoryEntry;
  error : option string }.

(** The argument of [useState], also the literal passed by [handleReset]. *)
Definition initialState : AppState :=
  {| isInitialized := false; isRunning := false; st_generation := 0%Q;
     st_target := ""; population := []; bestEver := None;
     averageFitness := 0%Q; isComplete := false; history := [];
     error := None |}.

(** [{ ...prev, error: e }] *)
Definition with_error (e : option string) (prev : AppState) : AppState :=
  {| isInitialized := isInitialized prev; isRunning := isRunning prev;
     st_generation := st_generation prev; st_target := st_target prev;
     population := population prev; bestEver := bestEver prev;
     averageFitness := averageFitness prev; isComplete := isComplete prev;
     history := history prev; error := e |}.

(** [{ ...prev, isRunning: false }] *)
Definition with_not_running (prev : AppState) : AppState :=
  {| isInitialized := isInitialized prev; isRunning := false;
     st_generation := st_generation prev; st_target := st_target prev;
     population := population prev; bestEver := bestEver prev;
     averageFitness := averageFitness prev; isComplete := isComplete prev;
     history := history prev; error := error prev |}.

(** The update of [handleStart] after [initialize] succeeded (lines 72-79). *)
Definition with_started (tgt : string) (pop : list Individual)
    (prev : AppState) : AppState :=
  {| isInitialized := true; isRunning := true;
     st_generation := 0%Q; st_target := tgt;
     population := pop; bestEver := bestEver prev;
     averageFitness := averageFitness prev; isComplete := isComplete prev;
     history := history prev; error := error prev |}.

(** The update of [evolveGeneration] after its three calls (lines 109-117). *)
Definition with_tick (pop : list Individual) (stats : Statistics)
    (complete : bool) (hist : list HistoryEntry) (best : Individual)
    (prev : AppState) : AppState :=
  {| isInitialized := isInitialized prev; isRunning := isRunning prev;
     st_generation := stat_generation stats; st_target := st_target prev;
     population := pop; bestEver := Some best;
     averageFitness := stat_avg_fitness stats; isComplete := complete;
     history := hist; error := error prev |}.

(** ** The world of the event loop *)

(** Where an [async] handler is suspended: the code after each [await]. *)
Inductive Cont :=
| AwaitInitialize (tgt : string)
| AwaitEvolve
| AwaitHistory (pop : list Individual) (stats : Statistics) (complete : bool)
| AwaitBest (pop : list Individual) (stats : Statistics) (complete : bool)
    (hist : list HistoryEntry)
| AwaitReset
| AwaitHealth.

Inductive LogEntry :=
| ConsoleLog (text : string)
| ConsoleError (text : string) (e : JsError).

Record World := mkWorld {
  state : AppState;
  (** [evolutionIntervalRef.current]; handles are positive, hence truthy *)
  evolutionIntervalRef : option positive;
  (** live intervals of the runtime: handle to period in milliseconds *)
  timers : gmap positive nat;
  next_timer : positive;
  (** remote calls in flight, with the suspended handler awaiting each *)
  pending : gmap nat Cont;
  next_call : nat;
  (** remote calls issued so far, oldest first *)
  calls : list Call;
  console : list LogEntry }.

Definition init_world : World :=
  {| state := initialState; evolutionIntervalRef := None; timers := ∅;
     next_timer := 1%positive; pending := ∅; next_call := 0%nat;
     calls := []; console := [] |}.

(** [setState(f)]: functional updates are applied in the order queued, so
    applying each at once yields the state React settles on. *)
Definition setState (f : AppState → AppState) (w : World) : World :=
  {| state := f (state w); evolutionIntervalRef := evolutionIntervalRef w;
     timers := timers w; next_timer := next_timer w; pending := pending w;
     next_call := next_call w; calls := calls w; console := console w |}.

Definition log (l : LogEntry) (w : World) : World :=
  {| state := state w; evolutionIntervalRef := evolutionIntervalRef w;
     timers := timers w; next_timer := next_timer w; pending := pending w;
     next_call := next_call w; calls := calls w;
     console := console w ++ [l] |}.

(** Issue a remote call and suspend on it with continuation [k]. *)
Definition issue (c : Call) (k : Cont) (w : World) : World :=
  {| state := state w; evolutionIntervalRef := evolutionIntervalRef w;
     timers := timers w; next_timer := next_timer w;
     pending := <[next_call w := k]> (pending w);
     next_call := S (next_call w); calls := calls w ++ [c];
     console := console w |}.

Definition forget (id : nat) (w : World) : World :=
  {| state := state w; evolutionIntervalRef := evolutionIntervalRef w;
     timers := timers w; next_timer := next_timer w;
     pending := delete id (pending w);
     next_call := next_call w; calls := calls w; console := console w |}.

(** [if (ref.current) { clearInterval(ref.current); ref.current = null }] *)
Definition clearRefInterval (w : World) : World :=
  match evolutionIntervalRef w with
  | Some h =>
      {| state := state w; evolutionIntervalRef := None;
         timers := delete h (timers w); next_timer := next_timer w;
         pending := pending w; next_call := next_call w; calls := calls w;
         console := console w |}
  | None => w
  end.

Definition POLL_PERIOD_MS : nat := 100.

(** [ref.current = setInterval(() => evolveGeneration(), 100)] *)
Definition startInterval (w : World) : World :=
  {| state := state w; evolutionIntervalRef := Some (next_timer w);
     timers := <[next_timer w := POLL_PERIOD_MS]> (timers w);
     next_timer := Pos.succ (next_timer w);
     pending := pending w; next_call := next_call w; calls := calls w;
     console := console w |}.

(** ** The handlers of [App.tsx] *)

(** The mount effect: one health check. *)
Definition mount (w : World) : World := issue ApiHealthCheck AwaitHealth w.

Definition handleStart (tgt : string) (config : GAConfig) (w : World) : World :=
  issue (ApiInitialize
           {| target := tgt;
              population_size := cfg_population_size config;
              mutation_rate := cfg_mutation_rate config;
              crossover_rate := cfg_crossover_rate config;
              elitism_count := cfg_elitism_count config |})
        (AwaitInitialize tgt)
        (setState (with_error None) w).

(** [evolveGeneration] up to its first [await]. *)
Definition evolveGeneration (w : World) : World :=
  issue (ApiEvolve 1) AwaitEvolve w.

Definition stopEvolution (w : World) : World :=
  setState with_not_running (clearRefInterval w).

(** [handleReset] up to its [await]. *)
Definition handleReset (w : World) : World :=
  issue ApiReset AwaitReset (stopEvolution w).

(** Lines 109-127: merge the tick's results, then stop if complete. *)
Definition reconcile (pop : list Individual) (stats : Statistics)
    (complete : bool) (hist : list HistoryEntry) (best : Individual)
    (w : World) : World :=
  let w1 := setState (with_tick pop stats complete hist best) w in
  if complete then
    setState with_not_running
      (clearRefInterval (log (ConsoleLog "Evolution complete! Stopping...") w1))
  else w1.

(** The [catch] of [evolveGeneration] (lines 128-135). *)
Definition evolveFailed (e : JsError) (w : World) : World :=
  setState with_not_running
    (clearRefInterval (log (ConsoleError "Evolution error:" e) w)).

Definition HEALTH_ERROR : string :=
  "Cannot connect to API. Make sure the backend is running on http://localhost:8000".

(** Resume the handler suspended as [k] with outcome [o].  [None]: the
    answer does not have the shape of the call awaited. *)
Definition resume (k : Cont) (o : Outcome) (w : World) : option World :=
  match k, o with
  | AwaitInitialize tgt, Fulfilled (DataInit pop) =>
      Some (startInterval (setState (with_started tgt pop) w))
  | AwaitInitialize _, Rejected e =>
      Some (setState (with_error (Some (message_or e "Failed to initialize GA"))) w)
  | AwaitEvolve, Fulfilled (DataEvolve d) =>
      Some (issue ApiGetHistory
              (AwaitHistory (top_individuals d) (statistics d) (is_complete d)) w)
  | AwaitHistory pop stats complete, Fulfilled (DataHistory hist) =>
      Some (issue ApiGetBest (AwaitBest pop stats complete hist) w)
  | AwaitBest pop stats complete hist, Fulfilled (DataBest best) =>
      Some (reconcile pop stats complete hist best w)
  | AwaitEvolve, Rejected e
  | AwaitHistory _ _ _, Rejected e
  | AwaitBest _ _ _ _, Rejected e =>
      Some (evolveFailed e w)
  | AwaitReset, Fulfilled _ =>
      Some (setState (fun _ => initialState) w)
  | AwaitReset, Rejected e =>
      Some (setState (with_error (Some (message_or e "Failed to reset"))) w)
  | AwaitHealth, Fulfilled _ =>
      Some (log (ConsoleLog "API is healthy") w)
  | AwaitHealth, Rejected e =>
      Some (setState (with_error (Some HEALTH_ERROR))
              (log (ConsoleError "API health check failed:" e) w))
  | _, _ => None
  end.

(** Settlement of call [id]: its handler runs on to the next [await]. *)
Definition settle (id : nat) (o : Outcome) (w : World) : World :=
  match pending w !! id with
  | Some k =>
      match resume k o (forget id w) with
      | Some w' => w'
      | None => w
      end
  | None => w
  end.

(** A cancelled interval never fires: firing a handle that is not live
    does nothing. *)
Definition fire (h : positive) (w : World) : World :=
  match timers w !! h with
  | Some _ => evolveGeneration w
  | None => w
  end.

Inductive Event :=
| UserStart (tgt : string) (config : GAConfig)
| UserStop
| UserReset
| TimerFire (h : positive)
| Settle (id : nat) (o : Outcome).

Definition step (w : World) (ev : Event) : World :=
  match ev with
  | UserStart tgt config => handleStart tgt config w
  | UserStop => stopEvolution w
  | UserReset => handleReset w
  | TimerFire h => fire h w
  | Settle id o => settle id o w
  end.

Definition run (w : World) (evs : list Event) : World := foldl step w evs.

(** ** The fitness chart ([components/FitnessChart.tsx])

    The effect of [FitnessChart] is embedded as the list of canvas
    operations it performs, in order.  Floating-point rounding of the
    coordinates is not modelled. *)

Local Open Scope Q_scope.

Inductive Text :=
| Literal (s : string)
| Percent (n : Z)          (* `${n}%` *)
| Digits (n : Z).          (* n.toString() *)

Inductive CanvasOp :=
| FillStyle (colour : string)
| StrokeStyle (colour : string)
| LineWidth (n : number)
| Font (f : string)
| TextAlign (a : string)
| FillRect (x y w h : number)
| BeginPath
| MoveTo (x y : number)
| LineTo (x y : number)
| Stroke
| FillText (t : Text) (x y : number).

(** The [<canvas>] element behind [canvasRef]; [context2d] tells whether
    [getContext('2d')] returns a context. *)
Record Canvas := mkCanvas {
  width : number;
  height : number;
  context2d : bool }.

(** The element as the component's JSX creates it. *)
Definition chartCanvas : Canvas :=
  {| width := 800; height := 400; context2d := true |}.

Definition padding : number := 40.

(** [Math.max(...xs)]; [None] stands for the [-Infinity] of no argument. *)
Definition Math_max (xs : list number) : option number :=
  foldr (fun x acc => match acc with
                      | Some m => Some (Qmax x m)
                      | None => Some x
                      end) None xs.

(** [Math.max(1, Math.max(...data.map((d) => d.generation)))] *)
Definition maxGen (data : list HistoryEntry) : number :=
  match Math_max (map generation data) with
  | Some m => Qmax 1 m
  | None => 1
  end.

(** [maxGen || 1]: zero is falsy. *)
Definition or_one (x : number) : number := if Qeq_bool x 0 then 1 else x.

Definition xScale (c : Canvas) (data : list HistoryEntry) : number :=
  (width c - 2 * padding) / or_one (maxGen data).

Definition yScale (c : Canvas) : number := height c - 2 * padding.

Definition plotX (c : Canvas) (data : list HistoryEntry) (p : HistoryEntry)
    : number :=
  padding + (generation p / maxGen data) * (width c - 2 * padding).

Definition plotY (c : Canvas) (f : HistoryEntry → number) (p : HistoryEntry)
    : number :=
  height c - padding - f p * yScale c.

(** One [data.forEach] pass drawing a series; [started] is the flag of the
    source. *)
Fixpoint polyline (c : Canvas) (data : list HistoryEntry)
    (f : HistoryEntry → number) (started : bool) (todo : list HistoryEntry)
    : list CanvasOp :=
  match todo with
  | [] => []
  | p :: rest =>
      (if started then LineTo (plotX c data p) (plotY c f p)
       else MoveTo (plotX c data p) (plotY c f p))
      :: polyline c data f true rest
  end.

Definition gridBand (c : Canvas) (i : nat) : list CanvasOp :=
  let y := padding + (height c - 2 * padding) * (inject_Z (Z.of_nat i) / 10) in
  [ BeginPath; MoveTo padding y; LineTo (width c - padding) y; Stroke;
    FillStyle "#666"; Font "12px Arial"; TextAlign "right";
    FillText (Percent (100 - Z.of_nat i * 10)) (padding - 10) (y + 4) ].

Definition xLabel (c : Canvas) (data : list HistoryEntry) (i : nat)
    : list CanvasOp :=
  let x := padding + (inject_Z (Z.of_nat i) / 5) * (width c - 2 * padding) in
  let genNum := Qfloor ((inject_Z (Z.of_nat i) / 5) * maxGen data) in
  [ FillText (Digits genNum) x (height c - padding + 20) ].

(** The body of the effect once the guards have passed. *)
Definition render (c : Canvas) (data : list HistoryEntry) : list CanvasOp :=
  [ FillStyle "#ffffff"; FillRect 0 0 (width c) (height c);
    StrokeStyle "#e0e0e0"; LineWidth 1 ]
  ++ flat_map (gridBand c) (seq 0 11)
  ++ [ StrokeStyle "#333"; LineWidth 2; BeginPath;
       MoveTo padding (height c - padding);
       LineTo (width c - padding) (height c - padding); Stroke;
       BeginPath; MoveTo padding padding;
       LineTo padding (height c - padding); Stroke ]
  ++ [ StrokeStyle "#4CAF50"; LineWidth 2; BeginPath ]
  ++ polyline c data best_fitness false data
  ++ [ Stroke; StrokeStyle "#2196F3"; LineWidth 2; BeginPath ]
  ++ polyline c data avg_fitness false data
  ++ [ Stroke;
       FillStyle "#4CAF50"; FillRect (width c - 250) 20 15 15;
       FillStyle "#333"; Font "14px Arial"; TextAlign "left";
       FillText (Literal "Best Fitness") (width c - 230) 32;
       FillStyle "#2196F3"; FillRect (width c - 250) 45 15 15;
       FillStyle "#333";
       FillText (Literal "Average Fitness") (width c - 230) 57;
       FillStyle "#666"; Font "12px Arial"; TextAlign "center" ]
  ++ flat_map (xLabel c data) (seq 0 6)
  ++ [ FillStyle "#333"; Font "bold 16px Arial"; TextAlign "center";
       FillText (Literal "Fitness Progress") (width c / 2) 20 ].

(** The effect: nothing without a canvas, without data or without a
    context. *)
Definition drawChart (canvas : option Canvas) (data : list HistoryEntry)
    : list CanvasOp :=
  match canvas with
  | None => []
  | Some c =>
      match data with
      | [] => []
      | _ :: _ => if context2d c then render c data else []
      end
  end.

Local Close Scope Q_scope.

(** ** Observations on worlds *)

Definition is_evolve (c : Call) : bool :=
  match c with ApiEvolve _ => true | _ => false end.

(** The [evolve] calls issued so far. *)
Definition evolve_calls (w : World) : list Call :=
  List.filter is_evolve (calls w).

Definition is_start (k : Cont) : bool :=
  match k with AwaitInitialize _ => true | _ => false end.

(** Continuations of [evolveGeneration]: a tick in flight. *)
Definition is_tick (k : Cont) : bool :=
  match k with
  | AwaitEvolve | AwaitHistory _ _ _ | AwaitBest _ _ _ _ => true
  | _ => false
  end.

(** The handles [evolutionIntervalRef] accounts for. *)
Definition ref_handles (w : World) : gset positive :=
  match evolutionIntervalRef w with
  | Some h => {[ h ]}
  | None => ∅
  end.

(** Every live interval is the one held in [evolutionIntervalRef]: the
    session has a single polling interval. *)
Definition timers_owned (w : World) : Prop :=
  dom (timers w) ⊆ ref_handles w.

(** No [handleStart] is suspended on its [initialize] call. *)
Definition no_start_pending (w : World) : Prop :=
  map_Forall (fun _ k => is_start k = false) (pending w).

(** Events the user does not cause: interval firings and settlements. *)
Definition system_event (ev : Event) : Prop :=
  match ev with
  | TimerFire _ | Settle _ _ => True
  | UserStart _ _ | UserStop | UserReset => False
  end.

(** No interval is live and no start is in flight: nothing can schedule a
    tick any more. *)
Definition quiet (w : World) : Prop :=
  timers w = ∅ ∧ no_start_pending w.

(** At most one [handleStart] is suspended on its [initialize] call. *)
Definition unique_start (w : World) : Prop :=
  ∀ i j ti tj,
    pending w !! i = Some (AwaitInitialize ti) →
    pending w !! j = Some (AwaitInitialize tj) → i = j.

(** One session at a time: the only interval that can be live is the one
    of the ref, at most one start is in flight, and none is while an
    interval is live. *)
Definition one_session (w : World) : Prop :=
  timers_owned w ∧ (no_start_pending w ∨ timers w = ∅) ∧ unique_start w.

(** The user starts a session only when none is live or being started. *)
Definition guarded_event (w : World) (ev : Event) : Prop :=
  match ev with
  | UserStart _ _ => quiet w
  | _ => True
  end.

Fixpoint guarded (w : World) (evs : list Event) : Prop :=
  match evs with
  | [] => True
  | ev :: rest => guarded_event w ev ∧ guarded (step w ev) rest
  end.

(** The fields a reset is to clear, with the two flags of an idle
    session. *)
Definition cleared (st : AppState) : Prop :=
  st_generation st = 0%Q ∧ population st = [] ∧ bestEver st = None ∧
  history st = [] ∧ error st = None ∧
  isInitialized st = false ∧ isRunning st = false.

(** ** Sample data for closed instances *)

Definition sampleConfig : GAConfig :=
  {| cfg_population_size := 50%Q; cfg_mutation_rate := (1 # 100)%Q;
     cfg_crossover_rate := (4 # 5)%Q; cfg_elitism_count := 2%Q |}.

Definition samplePopulation : list Individual :=
  [ {| genes := "XQ BE"; fitness := (3 # 5)%Q |};
    {| genes := "TO ZZ"; fitness := (3 # 5)%Q |} ].

Definition sampleBest : Individual :=
  {| genes := "TO BE"; fitness := 1%Q |}.

Definition sampleStats (g : Z) : Statistics :=
  {| stat_generation := inject_Z g; stat_best_fitness := 1%Q;
     stat_avg_fitness := (1 # 2)%Q; stat_worst_fitness := 0%Q |}.

Definition sampleHistory : list HistoryEntry :=
  [ {| generation := 1%Q; best_fitness := (3 # 5)%Q; avg_fitness := (2 # 5)%Q |};
    {| generation := 2%Q; best_fitness := 1%Q; avg_fitness := (1 # 2)%Q |} ].

Definition sampleEvolve (g : Z) (complete : bool) : EvolveData :=
  {| top_individuals := [sampleBest]; statistics := sampleStats g;
     is_complete := complete |}.

Definition networkError : JsError := {| message := Some "Network Error" |}.

(** A session started from the mounted page whose interval has fired once:
    call 0 is the health check, call 1 [initialize], call 2 the first
    tick's [evolve], still outstanding. *)
Definition runningWorld : World :=
  run (mount init_world)
    [ UserStart "TO BE" sampleConfig;
      Settle 1 (Fulfilled (DataInit samplePopulation));
      TimerFire 1 ].

(** The same session after its first tick has been answered and merged. *)
Definition tickedWorld : World :=
  run runningWorld
    [ Settle 2 (Fulfilled (DataEvolve (sampleEvolve 1 false)));
      Settle 3 (Fulfilled (DataHistory sampleHistory));
      Settle 4 (Fulfilled (DataBest sampleBest)) ].

(** The session when the tick that will report completion has only its
    [getBest] call (call 4) outstanding. *)
Definition completingWorld : World :=
  run runningWorld
    [ Settle 2 (Fulfilled (DataEvolve (sampleEvolve 42 true)));
      Settle 3 (Fulfilled (DataHistory sampleHistory)) ].

(** The mounted page after two clicks on start, the second while the
    first was still awaiting [initialize] (calls 1 and 2); both calls
    have succeeded, in that order, and the interval held in the ref has
    fired once: call 3 is that tick's [evolve], still outstanding. *)
Definition doubleStartWorld : World :=
  run (mount init_world)
    [ UserStart "TO BE" sampleConfig;
      UserStart "TO BE" sampleConfig;
      Settle 1 (Fulfilled (DataInit samplePopulation));
      Settle 2 (Fulfilled (DataInit samplePopulation));
      TimerFire 2 ].

(** What the system does on its own afterwards: the interval handle is
    fired again and the calls still in flight are answered. *)
Definition laterEvents : list Event :=
  [ TimerFire 1;
    Settle 0 (Fulfilled DataNone);
    Settle 2 (Fulfilled (DataEvolve (sampleEvolve 1 false)));
    TimerFire 1;
    Settle 3 (Fulfilled (DataHistory sampleHistory));
    Settle 4 (Fulfilled (DataBest sampleBest));
    TimerFire 1 ].

(** The history of a session of which only generation 0 is recorded. *)
Definition initialPoint : HistoryEntry :=
  {| generation := 0%Q; best_fitness := (3 # 5)%Q; avg_fitness := (2 # 5)%Q |}.

(** ** The rest of [App.tsx] *)

(** The cleanup of the mount effect (lines 52-56): the interval of the
    ref is cancelled, the ref itself is left as it is. *)
Definition unmount (w : World) : World :=
  match evolutionIntervalRef w with
  | Some h =>
      {| state := state w; evolutionIntervalRef := evolutionIntervalRef w;
         timers := delete h (timers w); next_timer := next_timer w;
         pending := pending w; next_call := next_call w; calls := calls w;
         console := console w |}
  | None => w
  end.

(** [{state.error && (...)}]: the text of the error banner, when it is
    rendered; the empty string is falsy. *)
Definition errorBanner (st : AppState) : option string :=
  match error st with
  | Some m => if String.eqb m "" then None else Some m
  | None => None
  end.

(** What the right panel shows: the welcome text until the session is
    initialized, then the population display and the chart. *)
Inductive RightPanel :=
| Welcome
| Displays (population : list Individual) (tgt : string) (gen : number)
    (best : option Individual) (avg : number) (complete : bool)
    (chartData : list HistoryEntry).

Definition rightPanel (st : AppState) : RightPanel :=
  if isInitialized st then
    Displays (population st) (st_target st) (st_generation st) (bestEver st)
      (averageFitness st) (isComplete st) (history st)
  else Welcome.

(** The remote calls an event makes the controller issue, read off the
    event and the world it arrives in. *)
Definition is_history (c : Call) : bool :=
  match c with ApiGetHistory => true | _ => false end.

Definition is_best (c : Call) : bool :=
  match c with ApiGetBest => true | _ => false end.

Definition is_await_evolve (k : Cont) : bool :=
  match k with AwaitEvolve => true | _ => false end.

Definition is_await_history (k : Cont) : bool :=
  match k with AwaitHistory _ _ _ => true | _ => false end.

(** How many calls in flight are awaited by a continuation of kind [f]. *)
Definition awaiting (f : Cont → bool) (w : World) : nat :=
  size (filter (λ kv : nat * Cont, f kv.2 = true) (pending w)).

(** How many calls of kind [f] have been issued. *)
Definition call_count (f : Call → bool) (w : World) : nat :=
  length (List.filter f (calls w)).

(** Every [getHistory] issued, and every [evolve] still unanswered, has an
    [evolve] call of its own in the log; likewise [getBest] and pending
    [getHistory] calls against the [getHistory] calls issued. *)
Definition calls_in_order (w : World) : Prop :=
  (call_count is_history w + awaiting is_await_evolve w
     ≤ call_count is_evolve w)%nat ∧
  (call_count is_best w + awaiting is_await_history w
     ≤ call_count is_history w)%nat.

(** The error field never holds the empty string. *)
Definition error_has_text (st : AppState) : Prop := error st ≠ Some "".

(** ** The remote client ([services/api.ts]) *)

Inductive Method := GET | POST.

Record EvolvePayload := mkEvolvePayload { generations : option number }.

Inductive RequestData :=
| NoData
| InitializeBody (payload : InitializePayload)
| EvolveBody (payload : EvolvePayload)
| CountParam (count : number).

Record Request := mkRequest {
  method : Method;
  path : string;
  data : RequestData }.

Module gaAPI.

Definition initialize (payload : InitializePayload) : Request :=
  {| method := POST; path := "/initialize"; data := InitializeBody payload |}.

(** [payload || { generations: 1 }]: an object is truthy, so only an
    omitted payload is replaced. *)
Definition evolve (payload : option EvolvePayload) : Request :=
  {| method := POST; path := "/evolve";
     data := EvolveBody (match payload with
                         | Some p => p
                         | None => {| generations := Some 1%Q |}
                         end) |}.

(** [count || 50]: an omitted count and zero are falsy. *)
Definition getPopulation (count : option number) : Request :=
  {| method := GET; path := "/population";
     data := CountParam (match count with
                         | Some n => if Qeq_bool n 0 then 50%Q else n
                         | None => 50%Q
                         end) |}.

Definition getStatistics : Request :=
  {| method := GET; path := "/statistics"; data := NoData |}.

Definition getBest : Request :=
  {| method := GET; path := "/best"; data := NoData |}.

Definition getHistory : Request :=
  {| method := GET; path := "/history"; data := NoData |}.

Definition isComplete : Request :=
  {| method := GET; path := "/is-complete"; data := NoData |}.

Definition reset : Request :=
  {| method := POST; path := "/reset"; data := NoData |}.

Definition healthCheck : Request :=
  {| method := GET; path := "/health"; data := NoData |}.

End gaAPI.

(** The request behind each call of the controller's log. *)
Definition request_of (c : Call) : Request :=
  match c with
  | ApiInitialize payload => gaAPI.initialize payload
  | ApiEvolve n =>
      gaAPI.evolve (Some {| generations := Some (inject_Z (Z.of_nat n)) |})
  | ApiGetHistory => gaAPI.getHistory
  | ApiGetBest => gaAPI.getBest
  | ApiReset => gaAPI.reset
  | ApiHealthCheck => gaAPI.healthCheck
  end.

(** ** The control panel ([components/ControlPanel.tsx])

    A string is its sequence of code units; the 8-bit characters here are
    the code units below 256. *)

Definition SHAKESPEARE_QUOTES : list string :=
  [ "TO BE OR NOT TO BE"; "ALL THE WORLDS A STAGE"; "WHAT IS IN A NAME";
    "LOVE ALL TRUST A FEW"; "BREVITY IS THE SOUL OF WIT" ].

Record PanelState := mkPanelState {
  targetPhrase : string;
  useCustom : bool;
  customPhrase : string;
  populationSize : number;
  mutationRate : number;
  crossoverRate : number;
  elitismCount : number }.

(** The arguments of the panel's [useState] calls. *)
Definition panelInitial : PanelState :=
  {| targetPhrase := "TO BE OR NOT TO BE"; useCustom := false;
     customPhrase := ""; populationSize := 200%Q;
     mutationRate := (1 # 100)%Q; crossoverRate := (4 # 5)%Q;
     elitismCount := 2%Q |}.

(** The white space and line terminators [trim] removes, among the code
    units below 256: TAB, LF, VT, FF, CR, SP and NBSP. *)
Definition is_white_space (a : Ascii.ascii) : bool :=
  let n := Ascii.nat_of_ascii a in
  (n =? 9)%nat || (n =? 10)%nat || (n =? 11)%nat || (n =? 12)%nat ||
  (n =? 13)%nat || (n =? 32)%nat || (n =? 160)%nat.

Fixpoint trimStart (s : string) : string :=
  match s with
  | String a rest => if is_white_space a then trimStart rest else s
  | EmptyString => EmptyString
  end.

(** [trimEnd], by recursion from the right: a white-space character is
    dropped when nothing is left after it. *)
Fixpoint trimEnd (s : string) : string :=
  match s with
  | String a rest =>
      match trimEnd rest with
      | EmptyString => if is_white_space a then EmptyString
                       else String a EmptyString
      | rest' => String a rest'
      end
  | EmptyString => EmptyString
  end.

Definition trim (s : string) : string := trimEnd (trimStart s).

(** Every code unit of the string is white space. *)
Fixpoint all_white_space (s : string) : bool :=
  match s with
  | String a rest => is_white_space a && all_white_space rest
  | EmptyString => true
  end.

(** What a click on "Start Evolution" does. *)
Inductive PanelAction :=
| Alert (text : string)
| OnStart (tgt : string) (config : GAConfig).

(** The panel's [handleStart]; [toUpperCase] is the string method of the
    runtime. *)
Definition panelHandleStart (toUpperCase : string → string) (s : PanelState)
    : PanelAction :=
  let tgt := if useCustom s then toUpperCase (customPhrase s)
             else targetPhrase s in
  if String.eqb (trim tgt) "" then Alert "Please enter a target phrase"
  else OnStart tgt
         {| cfg_population_size := populationSize s;
            cfg_mutation_rate := mutationRate s;
            cfg_crossover_rate := crossoverRate s;
            cfg_elitism_count := elitismCount s |}.

(** The controls the panel renders from the two flags it is passed. *)
Record PanelView := mkPanelView {
  startShown : bool;
  stopShown : bool;
  resetDisabled : bool;
  inputsDisabled : bool;
  successShown : bool }.

Definition panelView (running complete : bool) : PanelView :=
  {| startShown := negb running; stopShown := running;
     resetDisabled := running; inputsDisabled := running;
     successShown := complete |}.

(** The panel as [App] mounts it: the flags come from the session state
    and the callbacks are the controller's handlers. *)
Definition appPanelView (w : World) : PanelView :=
  panelView (isRunning (state w)) (isComplete (state w)).

Definition clickStart (toUpperCase : string → string) (s : PanelState)
    (w : World) : World * option string :=
  match panelHandleStart toUpperCase s with
  | Alert text => (w, Some text)
  | OnStart tgt config => (step w (UserStart tgt config), None)
  end.

(** ** The population display ([components/PopulationDisplay.tsx]) *)

Record Highlight := mkHighlight {
  char : Ascii.ascii;
  matches : bool }.

(** [char === target[i]]; past the end of the target the index yields
    [undefined], equal to no character. *)
Definition matches_at (tgt : string) (i : nat) (c : Ascii.ascii) : bool :=
  match String.get i tgt with
  | Some t => Ascii.eqb c t
  | None => false
  end.

(** [individual.split('').map((char, i) => ...)] from index [i] on. *)
Fixpoint highlightFrom (tgt : string) (i : nat) (individual : string)
    : list Highlight :=
  match individual with
  | String c rest =>
      {| char := c; matches := matches_at tgt i c |}
      :: highlightFrom tgt (S i) rest
  | EmptyString => []
  end.

Definition highlightDifferences (tgt : string) (individual : string)
    : list Highlight :=
  highlightFrom tgt 0 individual.

(** One row of the "Top 20" list. *)
Record Row := mkRow {
  rank : nat;
  isBest : bool;
  cells : list Highlight;
  rowFitness : number }.

(** [population.slice(0, 20).map((individual, index) => ...)] *)
Definition populationRows (tgt : string) (pop : list Individual) : list Row :=
  imap (fun index individual =>
          {| rank := index + 1; isBest := (index =? 0)%nat;
             cells := highlightDifferences tgt (genes individual);
             rowFitness := fitness individual |})
       (take 20 pop).

#[global] Instance timers_owned_dec w : Decision (timers_owned w).
Proof. unfold timers_owned. apply _. Defined.

#[global] Instance no_start_pending_dec w : Decision (no_start_pending w).
Proof. unfold no_start_pending. apply _. Defined.

#[global] Instance system_event_dec ev : Decision (system_event ev).
Proof. destruct ev; simpl; apply _. Defined.

(** * Properties of the session controller *)

Section Controller.

Implicit Types (w : World) (prev : AppState) (k : Cont) (o : Outcome)
  (e : JsError) (evs : list Event).

(** ** Stepping through an [await] *)

Lemma settle_issue c k o w :
  settle (next_call w) o (issue c k w) =
  match resume k o (forget (next_call w) (issue c k w)) with
  | Some w' => w'
  | None => issue c k w
  end.
Proof. unfold settle. simpl. by rewrite lookup_insert_eq. Qed.

Lemma settle_pending id k o w w' :
  pending w !! id = Some k →
  resume k o (forget id w) = Some w' →
  settle id o w = w'.
Proof. intros Hk Hr. unfold settle. by rewrite Hk, Hr. Qed.

Lemma run_app w evs1 evs2 : run w (evs1 ++ evs2) = run (run w evs1) evs2.
Proof. apply foldl_app. Qed.

Lemma run_cons w ev evs : run w (ev :: evs) = run (step w ev) evs.
Proof. reflexivity. Qed.

(** ** Field projections of the state updates *)

Lemma state_clearRefInterval w : state (clearRefInterval w) = state w.
Proof. unfold clearRefInterval. by destruct (evolutionIntervalRef w). Qed.

Lemma calls_clearRefInterval w : calls (clearRefInterval w) = calls w.
Proof. unfold clearRefInterval. by destruct (evolutionIntervalRef w). Qed.

Lemma pending_clearRefInterval w : pending (clearRefInterval w) = pending w.
Proof. unfold clearRefInterval. by destruct (evolutionIntervalRef w). Qed.

Lemma console_clearRefInterval w : console (clearRefInterval w) = console w.
Proof. unfold clearRefInterval. by destruct (evolutionIntervalRef w). Qed.

Lemma ref_clearRefInterval w : evolutionIntervalRef (clearRefInterval w) = None.
Proof.
  unfold clearRefInterval.
  by destruct (evolutionIntervalRef w) eqn:E.
Qed.

(** [clearRefInterval] removes exactly the handle of the ref. *)
Lemma timers_clearRefInterval w :
  timers (clearRefInterval w) =
  match evolutionIntervalRef w with
  | Some h => delete h (timers w)
  | None => timers w
  end.
Proof. unfold clearRefInterval. by destruct (evolutionIntervalRef w). Qed.

(** With a single polling interval, clearing the ref leaves none live. *)
Lemma timers_owned_cleared w :
  timers_owned w → timers (clearRefInterval w) = ∅.
Proof.
  unfold timers_owned, ref_handles. intros Hown.
  rewrite timers_clearRefInterval.
  destruct (evolutionIntervalRef w) as [h|].
  - apply map_empty. intros h'.
    destruct (decide (h' = h)) as [->|Hne].
    + apply lookup_delete_eq.
    + rewrite lookup_delete_ne by done.
      apply not_elem_of_dom. set_solver.
  - apply dom_empty_inv_L. set_solver.
Qed.

Lemma clearRefInterval_no_timers w :
  timers w = ∅ → timers (clearRefInterval w) = ∅.
Proof.
  intros Hnone. rewrite timers_clearRefInterval, Hnone.
  destruct (evolutionIntervalRef w); [apply delete_empty | done].
Qed.

Lemma evolve_calls_issue c k w :
  is_evolve c = false → evolve_calls (issue c k w) = evolve_calls w.
Proof.
  intros Hc. unfold evolve_calls. simpl.
  rewrite List.filter_app. simpl. rewrite Hc. apply app_nil_r.
Qed.

Lemma no_start_pending_forget id w :
  no_start_pending w → no_start_pending (forget id w).
Proof.
  unfold no_start_pending. simpl. intros Hw.
  apply map_Forall_delete, Hw.
Qed.

Lemma no_start_pending_issue c k w :
  is_start k = false → no_start_pending w → no_start_pending (issue c k w).
Proof.
  unfold no_start_pending. simpl. intros Hk Hw.
  by apply map_Forall_insert_2.
Qed.

(** ** Once quiet, always quiet

    When no interval is live and no start is in flight, events the user
    does not cause issue no [evolve] call, start no interval and never
    raise the running flag. *)

Lemma quiet_setState f w : quiet w → quiet (setState f w).
Proof. done. Qed.

Lemma quiet_log l w : quiet w → quiet (log l w).
Proof. done. Qed.

Lemma quiet_clearRefInterval w : quiet w → quiet (clearRefInterval w).
Proof.
  intros [Ht Hp]. split.
  - by apply clearRefInterval_no_timers.
  - unfold no_start_pending. by rewrite pending_clearRefInterval.
Qed.

Lemma quiet_reconcile pop stats complete hist best w :
  quiet w → quiet (reconcile pop stats complete hist best w).
Proof.
  intros Hq. unfold reconcile. destruct complete; [|done].
  by apply quiet_setState, quiet_clearRefInterval, quiet_log, quiet_setState.
Qed.

Lemma quiet_evolveFailed e w : quiet w → quiet (evolveFailed e w).
Proof.
  intros Hq. unfold evolveFailed.
  by apply quiet_setState, quiet_clearRefInterval, quiet_log.
Qed.

Lemma running_reconcile pop stats complete hist best w :
  isRunning (state (reconcile pop stats complete hist best w)) =
  isRunning (state w) && negb complete.
Proof.
  unfold reconcile. destruct complete; simpl.
  - by rewrite andb_false_r.
  - by rewrite andb_true_r.
Qed.

Lemma evolve_calls_reconcile pop stats complete hist best w :
  evolve_calls (reconcile pop stats complete hist best w) = evolve_calls w.
Proof.
  unfold evolve_calls, reconcile. destruct complete; simpl; [|done].
  by rewrite calls_clearRefInterval.
Qed.

Lemma evolve_calls_evolveFailed e w :
  evolve_calls (evolveFailed e w) = evolve_calls w.
Proof.
  unfold evolve_calls, evolveFailed. simpl.
  by rewrite calls_clearRefInterval.
Qed.

Lemma quiet_resume k o w w' :
  is_start k = false → quiet w → resume k o w = Some w' →
  quiet w' ∧ evolve_calls w' = evolve_calls w ∧
  (isRunning (state w) = false → isRunning (state w') = false).
Proof.
  intros Hk Hq Hr.
  destruct k; try discriminate Hk;
    destruct o as [[]|]; simpl in Hr; simplify_eq;
    try (split_and!;
         [ first [ by apply quiet_reconcile | by apply quiet_evolveFailed
                 | exact Hq
                 | by destruct Hq; split;
                   [ | apply no_start_pending_issue ] ]
         | first [ apply evolve_calls_reconcile
                 | apply evolve_calls_evolveFailed
                 | by apply evolve_calls_issue
                 | done ]
         | first [ rewrite running_reconcile; by intros ->
                 | done ] ]).
Qed.

Lemma quiet_forget id w : quiet w → quiet (forget id w).
Proof. intros [Ht Hp]. split; [done | by apply no_start_pending_forget]. Qed.

Lemma quiet_step w ev :
  quiet w → system_event ev →
  quiet (step w ev) ∧ evolve_calls (step w ev) = evolve_calls w ∧
  (isRunning (state w) = false → isRunning (state (step w ev)) = false).
Proof.
  intros Hq Hev. destruct ev as [| | |h|id o]; try done; simpl.
  - unfold fire. destruct Hq as [Ht Hp].
    rewrite Ht, lookup_empty. by split_and!.
  - unfold settle. destruct (pending w !! id) as [k|] eqn:Hk; [|done].
    destruct (resume k o (forget id w)) as [w'|] eqn:Hr; [|done].
    assert (is_start k = false) as Hns
      by (destruct Hq as [_ Hp]; exact (Hp id k Hk)).
    by apply (quiet_resume k o (forget id w) w' Hns (quiet_forget id w Hq)).
Qed.

Lemma quiet_run w evs :
  quiet w → Forall system_event evs →
  quiet (run w evs) ∧ evolve_calls (run w evs) = evolve_calls w ∧
  (isRunning (state w) = false → isRunning (state (run w evs)) = false).
Proof.
  intros Hq Hevs. revert w Hq.
  induction Hevs as [|ev evs Hev _ IH]; intros w Hq; [done|].
  rewrite run_cons.
  destruct (quiet_step w ev Hq Hev) as (Hq' & Hc & Hr).
  destruct (IH _ Hq') as (Hq'' & Hc' & Hr').
  split_and!; [done | congruence | auto].
Qed.

(** ** One session at a time

    As long as the user starts a session only when no interval is live and
    no start is in flight, every live interval is the one held in the
    ref, and none is live while a start is in flight. *)

Lemma unique_start_issue c k w :
  is_start k = false → unique_start w → unique_start (issue c k w).
Proof.
  intros Hk Hu i j ti tj. simpl.
  rewrite !lookup_insert. repeat case_decide; intros Hi Hj; simplify_eq;
    try done.
  by apply (Hu i j ti tj).
Qed.

Lemma unique_start_forget id w : unique_start w → unique_start (forget id w).
Proof.
  intros Hu i j ti tj. simpl.
  rewrite !lookup_delete. repeat case_decide; intros Hi Hj; simplify_eq.
  by apply (Hu i j ti tj).
Qed.

Lemma one_session_issue c k w :
  is_start k = false → one_session w → one_session (issue c k w).
Proof.
  intros Hk (Hown & Hor & Hu). split_and!.
  - exact Hown.
  - destruct Hor as [Hns|Ht]; [left | by right].
    by apply no_start_pending_issue.
  - by apply unique_start_issue.
Qed.

Lemma one_session_forget id w : one_session w → one_session (forget id w).
Proof.
  intros (Hown & Hor & Hu). split_and!.
  - exact Hown.
  - destruct Hor as [Hns|Ht]; [left | by right].
    by apply no_start_pending_forget.
  - by apply unique_start_forget.
Qed.

Lemma one_session_setState f w : one_session w → one_session (setState f w).
Proof. done. Qed.

Lemma one_session_log l w : one_session w → one_session (log l w).
Proof. done. Qed.

Lemma one_session_clearRefInterval w :
  one_session w → one_session (clearRefInterval w).
Proof.
  intros (Hown & Hor & Hu).
  pose proof (timers_owned_cleared w Hown) as Ht.
  split_and!.
  - unfold timers_owned. rewrite Ht. set_solver.
  - by right.
  - unfold unique_start. by rewrite pending_clearRefInterval.
Qed.

Lemma one_session_handleStart tgt config w :
  quiet w → one_session (handleStart tgt config w).
Proof.
  intros [Ht Hns]. unfold handleStart. split_and!.
  - unfold timers_owned. simpl. rewrite Ht. set_solver.
  - by right.
  - intros i j ti tj. simpl.
    rewrite !lookup_insert. repeat case_decide; intros Hi Hj; simplify_eq;
      try done.
    + by pose proof (Hns j _ Hj).
    + by pose proof (Hns i _ Hi).
    + by pose proof (Hns i _ Hi).
Qed.

Lemma one_session_startInterval w :
  quiet w → unique_start w → one_session (startInterval w).
Proof.
  intros [Ht Hns] Hu. split_and!.
  - unfold timers_owned, ref_handles. simpl. rewrite Ht.
    by rewrite dom_insert_L, dom_empty_L, union_empty_r_L.
  - by left.
  - exact Hu.
Qed.

(** When the start in flight is answered, no other is pending and no
    interval is live. *)
Lemma one_session_start_settled id tgt w :
  one_session w → pending w !! id = Some (AwaitInitialize tgt) →
  quiet (forget id w) ∧ unique_start (forget id w).
Proof.
  intros (Hown & Hor & Hu) Hk. split; [split|].
  - destruct Hor as [Hns|Ht]; [by pose proof (Hns id _ Hk) | exact Ht].
  - intros j k. simpl. rewrite lookup_delete. case_decide; [done|].
    intros Hj. destruct k as [tgt'| | | | |]; try done.
    by destruct (Hu id j tgt tgt' Hk Hj).
  - by apply unique_start_forget.
Qed.

Lemma one_session_resume id k o w w' :
  one_session w → pending w !! id = Some k →
  resume k o (forget id w) = Some w' → one_session w'.
Proof.
  intros Hone Hk Hr.
  pose proof (one_session_forget id w Hone) as Hf.
  destruct k as [tgt| |pop stats complete|pop stats complete hist| |];
    destruct o as [[]|]; simpl in Hr; simplify_eq;
    try (by apply one_session_issue);
    try exact Hf;
    try (by apply one_session_setState, one_session_clearRefInterval).
  - destruct (one_session_start_settled id tgt w Hone Hk) as [Hq Hu].
    by apply one_session_startInterval.
  - unfold reconcile. destruct complete; [|exact Hf].
    by apply one_session_setState, one_session_clearRefInterval.
Qed.

Lemma one_session_step w ev :
  one_session w → guarded_event w ev → one_session (step w ev).
Proof.
  intros Hone Hg. destruct ev as [tgt config| | |h|id o]; simpl.
  - by apply one_session_handleStart.
  - by apply one_session_setState, one_session_clearRefInterval.
  - apply one_session_issue; [done|].
    by apply one_session_setState, one_session_clearRefInterval.
  - unfold fire. destruct (timers w !! h); [|done].
    by apply one_session_issue.
  - unfold settle. destruct (pending w !! id) as [k|] eqn:Hk; [|done].
    destruct (resume k o (forget id w)) as [w'|] eqn:Hr; [|done].
    by apply (one_session_resume id k o w w').
Qed.

Lemma one_session_run w evs :
  one_session w → guarded w evs → one_session (run w evs).
Proof.
  revert w. induction evs as [|ev evs IH]; intros w Hone Hg; [done|].
  destruct Hg as [Hev Hrest]. rewrite run_cons.
  apply IH; [by apply one_session_step | done].
Qed.

Lemma one_session_mounted : one_session (mount init_world).
Proof.
  split_and!.
  - unfold timers_owned. simpl. set_solver.
  - by right.
  - intros i j ti tj. simpl. rewrite !lookup_insert, !lookup_empty.
    by repeat case_decide.
Qed.

(** The guard is needed: when a second start is issued while the first
    is still awaiting [initialize], the interval of the first stays live
    after the ref has moved on to the second. *)
Example overlapping_starts_leave_an_interval :
  let w := run (mount init_world)
             [ UserStart "TO BE" sampleConfig;
               UserStart "TO BE" sampleConfig;
               Settle 1 (Fulfilled (DataInit samplePopulation));
               Settle 2 (Fulfilled (DataInit samplePopulation)) ] in
  evolutionIntervalRef w = Some 2%positive ∧
  timers w !! 1%positive = Some POLL_PERIOD_MS ∧
  ¬ timers_owned w.
Proof.
  split_and!; [reflexivity | reflexivity | compute_done].
Qed.

(** While the interval is live in such a run, the hypotheses of the
    theorems on stopping hold. *)
Lemma one_session_live w h :
  one_session w → is_Some (timers w !! h) →
  timers_owned w ∧ no_start_pending w.
Proof.
  intros (Hown & Hor & _) [p Hp]. split; [done|].
  destruct Hor as [Hns|Ht]; [done|].
  by rewrite Ht, lookup_empty in Hp.
Qed.

(** ** Completion and stop end the polling loop *)

(** Within one session: when the tick whose [evolve] answer carried
    [is_complete = true] is reconciled, the same step marks the session
    complete, cancels the interval held in [evolutionIntervalRef], clears
    the ref and lowers the running flag; with that interval the only one
    live and no start in flight, no later firing or settlement issues
    another [evolve] call. *)
Theorem complete_tick_stops_polling w id pop stats hist best evs :
  pending w !! id = Some (AwaitBest pop stats true hist) →
  timers_owned w →
  no_start_pending w →
  Forall system_event evs →
  let w1 := step w (Settle id (Fulfilled (DataBest best))) in
  isComplete (state w1) = true ∧
  isRunning (state w1) = false ∧
  evolutionIntervalRef w1 = None ∧
  timers w1 = ∅ ∧
  evolve_calls w1 = evolve_calls w ∧
  evolve_calls (run w1 evs) = evolve_calls w ∧
  timers (run w1 evs) = ∅ ∧
  isRunning (state (run w1 evs)) = false.
Proof.
  intros Hk Hown Hns Hevs w1.
  assert (w1 = reconcile pop stats true hist best (forget id w)) as Hw1
    by (by apply (settle_pending id (AwaitBest pop stats true hist))).
  assert (timers w1 = ∅) as Ht.
  { rewrite Hw1. unfold reconcile.
    change (timers (clearRefInterval
              (log (ConsoleLog "Evolution complete! Stopping...")
                 (setState (with_tick pop stats true hist best)
                    (forget id w)))) = ∅).
    by apply timers_owned_cleared. }
  assert (quiet w1) as Hq.
  { split; [done|]. rewrite Hw1.
    unfold no_start_pending, reconcile.
    change (map_Forall (λ _ k, is_start k = false)
              (pending (clearRefInterval
                 (log (ConsoleLog "Evolution complete! Stopping...")
                    (setState (with_tick pop stats true hist best)
                       (forget id w)))))).
    rewrite pending_clearRefInterval. by apply no_start_pending_forget. }
  assert (isRunning (state w1) = false) as Hr by (by rewrite Hw1).
  assert (evolve_calls w1 = evolve_calls w) as Hc
    by (rewrite Hw1, evolve_calls_reconcile; reflexivity).
  destruct (quiet_run w1 evs Hq Hevs) as ([Ht' _] & Hc' & Hr').
  split_and!; try done.
  - rewrite Hw1. unfold reconcile. simpl.
    by rewrite state_clearRefInterval.
  - rewrite Hw1. unfold reconcile.
    apply (ref_clearRefInterval
             (log (ConsoleLog "Evolution complete! Stopping...")
                (setState (with_tick pop stats true hist best)
                   (forget id w)))).
  - congruence.
  - auto.
Qed.

(** Within one session: [stop()] cancels the interval of the ref and
    leaves the calls in flight outstanding; with that interval the only
    one live and no start in flight, no later firing or settlement issues
    an [evolve] call and the running flag stays down: the merge of a tick
    that is answered after the stop copies the flag it finds. *)
Theorem stop_cancels_future_ticks w evs :
  timers_owned w →
  no_start_pending w →
  Forall system_event evs →
  let w1 := step w UserStop in
  evolutionIntervalRef w1 = None ∧
  timers w1 = ∅ ∧
  pending w1 = pending w ∧
  calls w1 = calls w ∧
  evolve_calls (run w1 evs) = evolve_calls w ∧
  timers (run w1 evs) = ∅ ∧
  isRunning (state (run w1 evs)) = false ∧
  (∀ pop stats complete hist best prev,
     isRunning (with_tick pop stats complete hist best prev) =
     isRunning prev).
Proof.
  intros Hown Hns Hevs w1. subst w1. simpl. unfold stopEvolution.
  assert (timers (setState with_not_running (clearRefInterval w)) = ∅)
    as Ht by (by apply timers_owned_cleared).
  assert (quiet (setState with_not_running (clearRefInterval w))) as Hq.
  { split; [done|]. unfold no_start_pending. simpl.
    by rewrite pending_clearRefInterval. }
  destruct (quiet_run _ evs Hq Hevs) as ([Ht' _] & Hc' & Hr').
  split_and!; try done.
  - apply ref_clearRefInterval.
  - apply pending_clearRefInterval.
  - apply calls_clearRefInterval.
  - rewrite Hc'. unfold evolve_calls. simpl.
    by rewrite calls_clearRefInterval.
  - by apply Hr'.
Qed.

Lemma complete_tick_stops_polling_witness :
  timers_owned completingWorld ∧
  no_start_pending completingWorld ∧
  let w1 := step completingWorld (Settle 4 (Fulfilled (DataBest sampleBest))) in
  isComplete (state w1) = true ∧
  isRunning (state w1) = false ∧
  evolutionIntervalRef w1 = None ∧
  timers w1 = ∅ ∧
  evolve_calls w1 = evolve_calls completingWorld ∧
  evolve_calls (run w1 laterEvents) = evolve_calls completingWorld ∧
  timers (run w1 laterEvents) = ∅ ∧
  isRunning (state (run w1 laterEvents)) = false.
Proof.
  split; [compute_done|]. split; [compute_done|].
  apply (complete_tick_stops_polling completingWorld 4
           [sampleBest] (sampleStats 42) sampleHistory sampleBest
           laterEvents);
    [ reflexivity | compute_done | compute_done | repeat constructor ].
Defined.

Lemma stop_cancels_future_ticks_witness :
  pending runningWorld !! 2%nat = Some AwaitEvolve ∧
  let w1 := step runningWorld UserStop in
  evolve_calls (run w1 laterEvents) = evolve_calls runningWorld ∧
  isRunning (state (run w1 laterEvents)) = false.
Proof.
  split; [reflexivity|].
  destruct (stop_cancels_future_ticks runningWorld laterEvents)
    as (_ & _ & _ & _ & Hcalls & _ & Hrun & _);
    [ compute_done | compute_done | repeat constructor | ].
  split; [exact Hcalls | exact Hrun].
Defined.

(** ** Two overlapping starts

    [handleStart] stores the handle of its new interval in the ref without
    cancelling the interval the ref held, and the start button is on show
    until [initialize] has succeeded.  After a second click in that window
    two intervals are live and the ref holds the second. *)

(** C1: at the page started twice, the tick that reports completion is
    reconciled: the session is marked complete, the running flag is
    lowered and the ref is cleared, but only the second interval is
    cancelled; the first is still live and each of its firings issues
    another [evolve] call. *)
Theorem complete_tick_leaves_first_interval :
  let w1 := run doubleStartWorld
              [ Settle 3 (Fulfilled (DataEvolve (sampleEvolve 42 true)));
                Settle 4 (Fulfilled (DataHistory sampleHistory));
                Settle 5 (Fulfilled (DataBest sampleBest)) ] in
  startShown (appPanelView
                (step (mount init_world) (UserStart "TO BE" sampleConfig)))
    = true ∧
  isComplete (state w1) = true ∧
  isRunning (state w1) = false ∧
  evolutionIntervalRef w1 = None ∧
  timers w1 !! 2%positive = None ∧
  timers w1 !! 1%positive = Some POLL_PERIOD_MS ∧
  evolve_calls w1 = [ApiEvolve 1] ∧
  evolve_calls (run w1 [TimerFire 1; TimerFire 1]) =
    [ApiEvolve 1; ApiEvolve 1; ApiEvolve 1].
Proof. split_and!; by vm_compute. Qed.

(** C2: at the page started twice, with a tick's calls outstanding,
    [stop()] clears the ref and lowers the running flag but cancels the
    second interval only: the first fires on and dispatches the next
    [evolve] call.  And when the stop falls between the two settlements
    of [initialize], the second settlement raises the running flag again
    and starts an interval whose firing dispatches [evolve]. *)
Theorem stop_leaves_first_interval :
  let w1 := step doubleStartWorld UserStop in
  let w2 := run (mount init_world)
              [ UserStart "TO BE" sampleConfig;
                UserStart "TO BE" sampleConfig;
                Settle 1 (Fulfilled (DataInit samplePopulation));
                TimerFire 1;
                UserStop;
                Settle 2 (Fulfilled (DataInit samplePopulation));
                TimerFire 2 ] in
  pending doubleStartWorld !! 3%nat = Some AwaitEvolve ∧
  evolve_calls doubleStartWorld = [ApiEvolve 1] ∧
  evolutionIntervalRef w1 = None ∧
  isRunning (state w1) = false ∧
  timers w1 !! 1%positive = Some POLL_PERIOD_MS ∧
  evolve_calls (run w1 [TimerFire 1]) = [ApiEvolve 1; ApiEvolve 1] ∧
  isRunning (state w2) = true ∧
  evolve_calls w2 = [ApiEvolve 1; ApiEvolve 1].
Proof. split_and!; by vm_compute. Qed.

(** ** One poll tick *)

(** C3: a firing of the live interval issues [evolve], on its answer
    [getHistory], on that answer [getBest], and on that answer replaces
    population, generation, average fitness, best-ever and history by
    the values received; target, error and the initialized flag keep
    their values. *)
Theorem tick_calls_then_merges w h d hist best :
  is_Some (timers w !! h) →
  let id := next_call w in
  let w1 := step w (TimerFire h) in
  let w2 := step w1 (Settle id (Fulfilled (DataEvolve d))) in
  let w3 := step w2 (Settle (S id) (Fulfilled (DataHistory hist))) in
  let w4 := step w3 (Settle (S (S id)) (Fulfilled (DataBest best))) in
  calls w1 = calls w ++ [ApiEvolve 1] ∧
  calls w2 = calls w ++ [ApiEvolve 1; ApiGetHistory] ∧
  calls w3 = calls w ++ [ApiEvolve 1; ApiGetHistory; ApiGetBest] ∧
  calls w4 = calls w ++ [ApiEvolve 1; ApiGetHistory; ApiGetBest] ∧
  state w1 = state w ∧ state w2 = state w ∧ state w3 = state w ∧
  population (state w4) = top_individuals d ∧
  st_generation (state w4) = stat_generation (statistics d) ∧
  averageFitness (state w4) = stat_avg_fitness (statistics d) ∧
  bestEver (state w4) = Some best ∧
  history (state w4) = hist ∧
  isComplete (state w4) = is_complete d ∧
  st_target (state w4) = st_target (state w) ∧
  error (state w4) = error (state w) ∧
  isInitialized (state w4) = isInitialized (state w) ∧
  isRunning (state w4) = isRunning (state w) && negb (is_complete d).
Proof.
  intros [p Hlive] id w1 w2 w3 w4.
  assert (w1 = evolveGeneration w) as E1
    by (unfold w1; simpl; unfold fire; by rewrite Hlive).
  assert (w2 = issue ApiGetHistory
                 (AwaitHistory (top_individuals d) (statistics d)
                    (is_complete d)) (forget id w1)) as E2.
  { unfold w2, id. cbn [step]. rewrite E1. unfold evolveGeneration.
    by rewrite settle_issue. }
  assert (w3 = issue ApiGetBest
                 (AwaitBest (top_individuals d) (statistics d)
                    (is_complete d) hist) (forget (S id) w2)) as E3.
  { unfold w3. cbn [step]. rewrite E2.
    apply (settle_pending (S id)
             (AwaitHistory (top_individuals d) (statistics d) (is_complete d)));
      [|done].
    rewrite E1. simpl. apply lookup_insert_eq. }
  assert (w4 = reconcile (top_individuals d) (statistics d) (is_complete d)
                 hist best (forget (S (S id)) w3)) as E4.
  { unfold w4. cbn [step]. rewrite E3.
    apply (settle_pending (S (S id))
             (AwaitBest (top_individuals d) (statistics d) (is_complete d) hist));
      [|done].
    rewrite E2, E1. simpl. apply lookup_insert_eq. }
  assert (calls w3 = calls w ++ [ApiEvolve 1; ApiGetHistory; ApiGetBest])
    as C3 by (rewrite E3, E2, E1; simpl; by rewrite <- !app_assoc).
  assert (state w3 = state w) as S3 by (by rewrite E3, E2, E1).
  split_and!.
  - by rewrite E1.
  - rewrite E2, E1. simpl. by rewrite <- app_assoc.
  - done.
  - rewrite E4. unfold reconcile. destruct (is_complete d); simpl;
      by rewrite ?calls_clearRefInterval.
  - by rewrite E1.
  - by rewrite E2, E1.
  - done.
  - rewrite E4. unfold reconcile. destruct (is_complete d); simpl;
      by rewrite ?state_clearRefInterval.
  - rewrite E4. unfold reconcile. destruct (is_complete d); simpl;
      by rewrite ?state_clearRefInterval.
  - rewrite E4. unfold reconcile. destruct (is_complete d); simpl;
      by rewrite ?state_clearRefInterval.
  - rewrite E4. unfold reconcile. destruct (is_complete d); simpl;
      by rewrite ?state_clearRefInterval.
  - rewrite E4. unfold reconcile. destruct (is_complete d); simpl;
      by rewrite ?state_clearRefInterval.
  - rewrite E4. unfold reconcile. destruct (is_complete d); simpl;
      by rewrite ?state_clearRefInterval.
  - rewrite E4. unfold reconcile. destruct (is_complete d); simpl;
      rewrite ?state_clearRefInterval; simpl; by rewrite S3.
  - rewrite E4. unfold reconcile. destruct (is_complete d); simpl;
      rewrite ?state_clearRefInterval; simpl; by rewrite S3.
  - rewrite E4. unfold reconcile. destruct (is_complete d); simpl;
      rewrite ?state_clearRefInterval; simpl; by rewrite S3.
  - rewrite E4, running_reconcile. simpl. by rewrite S3.
Qed.

Lemma tick_calls_then_merges_witness :
  let w := run (mount init_world)
             [ UserStart "TO BE" sampleConfig;
               Settle 1 (Fulfilled (DataInit samplePopulation)) ] in
  let w4 := run w [ TimerFire 1;
                    Settle 2 (Fulfilled (DataEvolve (sampleEvolve 1 false)));
                    Settle 3 (Fulfilled (DataHistory sampleHistory));
                    Settle 4 (Fulfilled (DataBest sampleBest)) ] in
  is_Some (timers w !! 1%positive) ∧
  calls w4 = calls w ++ [ApiEvolve 1; ApiGetHistory; ApiGetBest] ∧
  population (state w4) = [sampleBest] ∧
  st_generation (state w4) = 1%Q ∧
  bestEver (state w4) = Some sampleBest ∧
  history (state w4) = sampleHistory.
Proof.
  intros w w4.
  assert (is_Some (timers w !! 1%positive)) as Hlive by (by eexists).
  split; [exact Hlive|].
  destruct (tick_calls_then_merges w 1%positive (sampleEvolve 1 false)
              sampleHistory sampleBest Hlive)
    as (_ & _ & _ & Hc & _ & _ & _ & Hp & Hg & _ & Hb & Hh & _).
  split_and!; [exact Hc | exact Hp | exact Hg | exact Hb | exact Hh].
Defined.

(** C8: merging the results of one tick a second time changes nothing:
    the session state, the ref and the live intervals after two
    reconciliations of the same response are those after one. *)
Theorem reconcile_idempotent w pop stats complete hist best :
  let r := reconcile pop stats complete hist best in
  state (r (r w)) = state (r w) ∧
  evolutionIntervalRef (r (r w)) = evolutionIntervalRef (r w) ∧
  timers (r (r w)) = timers (r w) ∧
  (∀ prev,
     with_tick pop stats complete hist best
       (with_tick pop stats complete hist best prev) =
     with_tick pop stats complete hist best prev).
Proof.
  intros r. subst r.
  assert (∀ prev,
            with_tick pop stats complete hist best
              (with_tick pop stats complete hist best prev) =
            with_tick pop stats complete hist best prev) as Htick
    by (by intros prev).
  unfold reconcile. destruct complete.
  - split_and!; [| | |exact Htick].
    + unfold log, setState. cbn. rewrite !state_clearRefInterval.
      reflexivity.
    + cbn [evolutionIntervalRef setState].
      by rewrite !ref_clearRefInterval.
    + cbn [timers setState].
      rewrite (timers_clearRefInterval (log _ (setState _ (setState _ _)))).
      cbn [evolutionIntervalRef log setState].
      by rewrite ref_clearRefInterval.
  - split_and!; [apply Htick | done | done | exact Htick].
Qed.

(** ** Stop *)

(** C10: [stop()] changes the running flag and no other field of the
    session state. *)
Theorem stop_changes_only_running w :
  let st := state w in
  let st' := state (step w UserStop) in
  st' = with_not_running st ∧
  isRunning st' = false ∧
  st_generation st' = st_generation st ∧
  st_target st' = st_target st ∧
  population st' = population st ∧
  bestEver st' = bestEver st ∧
  averageFitness st' = averageFitness st ∧
  isComplete st' = isComplete st ∧
  history st' = history st ∧
  error st' = error st ∧
  isInitialized st' = isInitialized st.
Proof.
  intros st st'. subst st st'. simpl. unfold stopEvolution. simpl.
  rewrite state_clearRefInterval. by split_and!.
Qed.

(** ** Start *)

(** C6: [start(target, config)] issues [initialize] with the target and
    the four parameters; when it succeeds the returned population is
    stored, generation is 0, the target is set, the error is null, the
    session is initialized and running, and a fresh interval of period
    100 ms is live and held in the ref, each firing of which runs
    [evolveGeneration]. *)
Theorem start_success_begins_polling w tgt config pop :
  let w1 := step w (UserStart tgt config) in
  let w2 := step w1 (Settle (next_call w) (Fulfilled (DataInit pop))) in
  calls w2 =
    calls w ++ [ApiInitialize
                  {| target := tgt;
                     population_size := cfg_population_size config;
                     mutation_rate := cfg_mutation_rate config;
                     crossover_rate := cfg_crossover_rate config;
                     elitism_count := cfg_elitism_count config |}] ∧
  population (state w2) = pop ∧
  st_generation (state w2) = 0%Q ∧
  st_target (state w2) = tgt ∧
  error (state w2) = None ∧
  isInitialized (state w2) = true ∧
  isRunning (state w2) = true ∧
  evolutionIntervalRef w2 = Some (next_timer w) ∧
  timers w2 = <[next_timer w := POLL_PERIOD_MS]> (timers w) ∧
  timers w1 = timers w ∧
  step w2 (TimerFire (next_timer w)) = evolveGeneration w2.
Proof.
  intros w1 w2. subst w1 w2. cbn [step]. unfold handleStart.
  rewrite (settle_issue _ _ _ (setState (with_error None) w)).
  simpl. split_and!; try done.
  unfold fire. simpl. by rewrite lookup_insert_eq.
Qed.

(** C7: when [initialize] fails, a session that was neither initialized
    nor running stays so, the error field holds the failure message
    (the fixed text when the failure carries none), no interval is
    started and no further call is issued. *)
Theorem start_failure_stays_idle w tgt config e :
  isInitialized (state w) = false →
  isRunning (state w) = false →
  let w1 := step w (UserStart tgt config) in
  let w2 := step w1 (Settle (next_call w) (Rejected e)) in
  isInitialized (state w2) = false ∧
  isRunning (state w2) = false ∧
  error (state w2) = Some (message_or e "Failed to initialize GA") ∧
  state w2 =
    with_error (Some (message_or e "Failed to initialize GA")) (state w) ∧
  timers w2 = timers w ∧
  evolutionIntervalRef w2 = evolutionIntervalRef w ∧
  calls w2 = calls w1 ∧
  pending w2 = delete (next_call w) (pending w1).
Proof.
  intros Hi Hr w1 w2. subst w1 w2. cbn [step]. unfold handleStart.
  rewrite (settle_issue _ _ _ (setState (with_error None) w)).
  simpl. by split_and!.
Qed.

Lemma start_failure_stays_idle_witness :
  let w := mount init_world in
  let w2 := run w [ UserStart "TO BE" sampleConfig;
                    Settle 1 (Rejected networkError) ] in
  isInitialized (state w2) = false ∧
  isRunning (state w2) = false ∧
  error (state w2) = Some "Network Error" ∧
  timers w2 = ∅ ∧
  evolutionIntervalRef w2 = None.
Proof.
  intros w w2.
  destruct (start_failure_stays_idle w "TO BE" sampleConfig networkError)
    as (Hi & Hr & He & _ & Ht & Href & _); [reflexivity | reflexivity |].
  split_and!; [exact Hi | exact Hr | exact He | exact Ht | exact Href].
Defined.

(** ** Reset *)

(** C4, as stated, fails: a reset whose remote call is rejected leaves
    generation, population, best-ever and history of the ticked session
    in place and sets the error. *)
Lemma reset_failure_keeps_fields :
  let w' := run tickedWorld [ UserReset; Settle 5 (Rejected networkError) ] in
  st_generation (state w') = 1%Q ∧
  population (state w') = [sampleBest] ∧
  history (state w') = sampleHistory ∧
  error (state w') = Some "Network Error" ∧
  ¬ cleared (state w').
Proof.
  split_and!; try reflexivity.
  intros (Hgen & _). vm_compute in Hgen. discriminate Hgen.
Qed.

(** C4, amended: [reset()] first stops the loop (cancels the interval of
    the ref, clears the ref, lowers the running flag) and issues the
    remote reset.  When that call succeeds the session state is the
    initial one whatever it was before.  When it fails only the error
    field is set, to the failure message or the fixed text; the loop
    stays stopped. *)
Theorem reset_clears_on_success w p e :
  let w0 := step w UserReset in
  let ok := step w0 (Settle (next_call w) (Fulfilled p)) in
  let ko := step w0 (Settle (next_call w) (Rejected e)) in
  calls w0 = calls w ++ [ApiReset] ∧
  evolutionIntervalRef w0 = None ∧
  timers w0 = match evolutionIntervalRef w with
              | Some h => delete h (timers w)
              | None => timers w
              end ∧
  state w0 = with_not_running (state w) ∧
  state ok = initialState ∧
  cleared (state ok) ∧
  evolutionIntervalRef ok = None ∧ timers ok = timers w0 ∧
  state ko =
    with_error (Some (message_or e "Failed to reset"))
      (with_not_running (state w)) ∧
  isRunning (state ko) = false ∧
  evolutionIntervalRef ko = None ∧ timers ko = timers w0.
Proof.
  intros w0 ok ko.
  assert (w0 = issue ApiReset AwaitReset (stopEvolution w)) as E0 by done.
  assert (next_call w = next_call (stopEvolution w)) as En.
  { unfold stopEvolution, clearRefInterval.
    by destruct (evolutionIntervalRef w). }
  assert (ok = setState (λ _, initialState) (forget (next_call w) w0)) as Eok.
  { unfold ok. cbn [step]. rewrite E0, En. by rewrite settle_issue. }
  assert (ko = setState (with_error (Some (message_or e "Failed to reset")))
                 (forget (next_call w) w0)) as Eko.
  { unfold ko. cbn [step]. rewrite E0, En. by rewrite settle_issue. }
  assert (state w0 = with_not_running (state w)) as S0.
  { rewrite E0. unfold stopEvolution. cbn.
    by rewrite state_clearRefInterval. }
  assert (evolutionIntervalRef w0 = None) as R0.
  { rewrite E0. unfold stopEvolution. cbn. apply ref_clearRefInterval. }
  assert (calls w0 = calls w ++ [ApiReset]) as C0.
  { rewrite E0. unfold stopEvolution. cbn.
    by rewrite calls_clearRefInterval. }
  assert (timers w0 = match evolutionIntervalRef w with
                      | Some h => delete h (timers w)
                      | None => timers w
                      end) as T0.
  { rewrite E0. unfold stopEvolution. cbn. apply timers_clearRefInterval. }
  clearbody ok ko. clearbody w0. clear E0.
  split_and!; try done.
  - by rewrite Eok.
  - by rewrite Eok.
  - by rewrite Eok.
  - by rewrite Eok.
  - rewrite Eko. cbn. by rewrite S0.
  - rewrite Eko. cbn. by rewrite S0.
  - by rewrite Eko.
  - by rewrite Eko.
Qed.

(** ** Failure of a tick *)

(** C5, as stated, fails: after the first tick's [evolve] call is
    rejected the session state holds no error; the cause is on the
    console only. *)
Lemma tick_failure_records_no_error :
  let w' := step runningWorld (Settle 2 (Rejected networkError)) in
  error (state w') = None ∧
  ¬ (∃ cause, error (state w') = Some cause) ∧
  state w' = with_not_running (state runningWorld) ∧
  console w' = [ConsoleError "Evolution error:" networkError].
Proof.
  split_and!; try reflexivity.
  intros [cause Hc]. vm_compute in Hc. discriminate Hc.
Qed.

(** C5, amended: when the call a tick is suspended on is rejected,
    whichever of the three it is, the handler in that step cancels the
    interval of the ref, clears the ref, lowers the running flag, logs
    the cause to the console, issues no call and abandons the tick; the
    session state is otherwise untouched, its error field included.
    When that interval is the session's only live one and no start is in
    flight, no later firing or settlement issues another [evolve]
    call. *)
Theorem tick_failure_stops_polling w id k e evs :
  pending w !! id = Some k →
  is_tick k = true →
  let w' := step w (Settle id (Rejected e)) in
  evolutionIntervalRef w' = None ∧
  timers w' = match evolutionIntervalRef w with
              | Some h => delete h (timers w)
              | None => timers w
              end ∧
  state w' = with_not_running (state w) ∧
  isRunning (state w') = false ∧
  error (state w') = error (state w) ∧
  console w' = console w ++ [ConsoleError "Evolution error:" e] ∧
  calls w' = calls w ∧
  pending w' = delete id (pending w) ∧
  (timers_owned w → no_start_pending w → Forall system_event evs →
   timers w' = ∅ ∧
   evolve_calls (run w' evs) = evolve_calls w ∧
   isRunning (state (run w' evs)) = false).
Proof.
  intros Hk Htick w'.
  assert (w' = evolveFailed e (forget id w)) as E.
  { apply (settle_pending id k); [done|]. by destruct k. }
  assert (state w' = with_not_running (state w)) as Hs.
  { rewrite E. unfold evolveFailed. cbn [state setState].
    by rewrite state_clearRefInterval. }
  assert (pending w' = delete id (pending w)) as Hp.
  { rewrite E. unfold evolveFailed. cbn [pending setState].
    by rewrite pending_clearRefInterval. }
  split_and!.
  - rewrite E. unfold evolveFailed. cbn [evolutionIntervalRef setState].
    apply ref_clearRefInterval.
  - rewrite E. unfold evolveFailed. cbn [timers setState].
    by rewrite timers_clearRefInterval.
  - exact Hs.
  - by rewrite Hs.
  - by rewrite Hs.
  - rewrite E. unfold evolveFailed. cbn [console setState].
    by rewrite console_clearRefInterval.
  - rewrite E. unfold evolveFailed. cbn [calls setState].
    by rewrite calls_clearRefInterval.
  - exact Hp.
  - intros Hown Hns Hevs.
    assert (timers w' = ∅) as Ht.
    { rewrite E. unfold evolveFailed. cbn [timers setState].
      by apply timers_owned_cleared. }
    assert (quiet w') as Hq.
    { split; [done|]. unfold no_start_pending. rewrite Hp.
      by apply map_Forall_delete. }
    destruct (quiet_run w' evs Hq Hevs) as (_ & Hc & Hr).
    split_and!.
    + exact Ht.
    + rewrite Hc, E, evolve_calls_evolveFailed. reflexivity.
    + apply Hr. by rewrite Hs.
Qed.

Lemma tick_failure_stops_polling_witness :
  let w' := step completingWorld (Settle 4 (Rejected networkError)) in
  evolutionIntervalRef w' = None ∧
  error (state w') = error (state completingWorld) ∧
  calls w' = calls completingWorld ∧
  timers w' = ∅ ∧
  evolve_calls (run w' laterEvents) = evolve_calls completingWorld ∧
  isRunning (state (run w' laterEvents)) = false.
Proof.
  intros w'.
  destruct (tick_failure_stops_polling completingWorld 4
              (AwaitBest [sampleBest] (sampleStats 42) true sampleHistory)
              networkError laterEvents)
    as (Href & _ & _ & _ & He & _ & Hc & _ & Hlater);
    [ reflexivity | reflexivity | ].
  destruct Hlater as (Ht & Hev & Hr);
    [ compute_done | compute_done | repeat constructor | ].
  split_and!; [exact Href | exact He | exact Hc | exact Ht | exact Hev
              | exact Hr].
Defined.

End Controller.

(** * Properties of the fitness chart *)

Section Chart.

Local Open Scope Q_scope.

Implicit Types (c : Canvas) (p q : HistoryEntry) (data : list HistoryEntry)
  (xs : list number).

(** [Math.max] of at least one argument is an upper bound of its
    arguments and is one of them. *)
Lemma Math_max_cons x xs :
  ∃ m, Math_max (x :: xs) = Some m ∧
       Forall (λ y, y <= m) (x :: xs) ∧
       Exists (λ y, m == y) (x :: xs).
Proof.
  revert x. induction xs as [|y ys IH]; intros x.
  - exists x. split_and!; [done | | ].
    + constructor; [apply Qle_refl | constructor].
    + by constructor.
  - destruct (IH y) as (m & Hm & Hub & Hex).
    exists (Qmax x m). split_and!.
    + change (Math_max (x :: y :: ys))
        with (match Math_max (y :: ys) with
              | Some m => Some (Qmax x m)
              | None => Some x
              end).
      by rewrite Hm.
    + constructor; [apply Q.le_max_l|].
      eapply Forall_impl; [exact Hub|].
      intros z Hz. simpl in Hz. eapply Qle_trans; [exact Hz|].
      apply Q.le_max_r.
    + destruct (Q.max_spec x m) as [[_ Hmax]|[_ Hmax]].
      * apply Exists_cons_tl.
        eapply Exists_impl; [exact Hex|].
        intros z Hz. simpl in Hz. by rewrite Hmax.
      * by apply Exists_cons_hd.
Qed.

Lemma maxGen_cons p rest :
  ∃ m, Math_max (map generation (p :: rest)) = Some m ∧
       maxGen (p :: rest) = Qmax 1 m.
Proof.
  destruct (Math_max_cons (generation p) (map generation rest))
    as (m & Hm & _).
  exists m. split; [exact Hm|].
  unfold maxGen. cbn [List.map]. by rewrite Hm.
Qed.

Lemma maxGen_ge_1 data : 1 <= maxGen data.
Proof.
  unfold maxGen. destruct (Math_max (map generation data)).
  - apply Q.le_max_l.
  - apply Qle_refl.
Qed.

Lemma maxGen_nonzero data : ¬ maxGen data == 0.
Proof.
  intros H0. pose proof (maxGen_ge_1 data) as H1.
  rewrite H0 in H1. by apply (Qle_not_lt _ _ H1).
Qed.

Lemma or_one_maxGen data : or_one (maxGen data) = maxGen data.
Proof.
  unfold or_one.
  destruct (Qeq_bool (maxGen data) 0) eqn:E; [|done].
  apply Qeq_bool_iff in E. by destruct (maxGen_nonzero data).
Qed.

(** A point of generation 0 is plotted on the left margin. *)
Lemma plotX_generation_0 c data p :
  generation p == 0 → plotX c data p == padding.
Proof.
  intros H0. unfold plotX, Qdiv. rewrite H0. ring.
Qed.

Lemma maxGen_upper_bound p rest :
  Forall (λ q, generation q <= maxGen (p :: rest)) (p :: rest).
Proof.
  destruct (Math_max_cons (generation p) (map generation rest))
    as (m & Hm & Hub & _).
  destruct (maxGen_cons p rest) as (m' & Hm' & ->).
  assert (m' = m) as -> by (cbn [List.map] in Hm'; congruence).
  apply List.Forall_forall. intros q Hq.
  apply Qle_trans with m; [|apply Q.le_max_r].
  rewrite List.Forall_forall in Hub. apply Hub.
  by apply (in_map generation) in Hq.
Qed.

Lemma maxGen_attained p rest :
  maxGen (p :: rest) == 1 ∨
  Exists (λ q, maxGen (p :: rest) == generation q) (p :: rest).
Proof.
  destruct (Math_max_cons (generation p) (map generation rest))
    as (m & Hm & _ & Hex).
  destruct (maxGen_cons p rest) as (m' & Hm' & ->).
  assert (m' = m) as -> by (cbn [List.map] in Hm'; congruence).
  destruct (Q.max_spec 1 m) as [[_ Hmax]|[_ Hmax]]; [right | by left].
  apply List.Exists_exists in Hex as (y & Hy & Hmy).
  apply (in_map_iff generation (p :: rest) y) in Hy as (q & <- & Hq).
  apply List.Exists_exists. exists q. split; [done|].
  by rewrite Hmax.
Qed.

Lemma maxGen_single_0 p : generation p == 0 → maxGen [p] == 1.
Proof.
  intros H0. unfold maxGen. cbn.
  apply Q.max_l. rewrite H0. discriminate.
Qed.

(** C9: for a non-empty history the denominator of the x scale is at
    least 1, bounds every generation of the data and is 1 or one of
    them, hence never zero; a single point of generation 0 has
    denominator 1 and starts the best-fitness line at x = padding; for
    an empty history the effect performs no canvas operation. *)
Theorem chart_scale_clamp c p rest :
  let data := p :: rest in
  1 <= maxGen data ∧
  ¬ maxGen data == 0 ∧
  Forall (λ q, generation q <= maxGen data) data ∧
  (maxGen data == 1 ∨ Exists (λ q, maxGen data == generation q) data) ∧
  xScale c data = (width c - 2 * padding) / maxGen data ∧
  (generation p == 0 →
     maxGen [p] == 1 ∧
     plotX c [p] p == padding ∧
     polyline c [p] best_fitness false [p] =
       [MoveTo (plotX c [p] p) (plotY c best_fitness p)] ∧
     (context2d c = true →
        ∃ pre post,
          drawChart (Some c) [p] =
          pre ++ MoveTo (plotX c [p] p) (plotY c best_fitness p) :: post)) ∧
  (∀ canvas, drawChart canvas [] = []).
Proof.
  intros data. subst data. split_and!.
  - apply maxGen_ge_1.
  - apply maxGen_nonzero.
  - apply maxGen_upper_bound.
  - apply maxGen_attained.
  - unfold xScale. by rewrite or_one_maxGen.
  - intros H0. split_and!.
    + by apply maxGen_single_0.
    + by apply plotX_generation_0.
    + reflexivity.
    + intros Hctx.
      exists ([ FillStyle "#ffffff"; FillRect 0 0 (width c) (height c);
                StrokeStyle "#e0e0e0"; LineWidth 1 ]
              ++ flat_map (gridBand c) (seq 0 11)
              ++ [ StrokeStyle "#333"; LineWidth 2; BeginPath;
                   MoveTo padding (height c - padding);
                   LineTo (width c - padding) (height c - padding); Stroke;
                   BeginPath; MoveTo padding padding;
                   LineTo padding (height c - padding); Stroke ]
              ++ [ StrokeStyle "#4CAF50"; LineWidth 2; BeginPath ]).
      eexists. unfold drawChart. rewrite Hctx. unfold render.
      cbn [polyline]. rewrite <- !app_assoc. reflexivity.
  - by intros [canvas|].
Qed.

Lemma chart_scale_clamp_witness :
  generation initialPoint == 0 ∧
  maxGen [initialPoint] == 1 ∧
  plotX chartCanvas [initialPoint] initialPoint == padding ∧
  polyline chartCanvas [initialPoint] best_fitness false [initialPoint] =
    [MoveTo (plotX chartCanvas [initialPoint] initialPoint)
            (plotY chartCanvas best_fitness initialPoint)].
Proof.
  assert (generation initialPoint == 0) as H0 by reflexivity.
  destruct (chart_scale_clamp chartCanvas initialPoint [])
    as (_ & _ & _ & _ & _ & Hsingle & _).
  destruct (Hsingle H0) as (Hmax & Hx & Hline & _).
  split_and!; [exact H0 | exact Hmax | exact Hx | exact Hline].
Defined.

End Chart.

(** * Further properties of the session controller *)

Section Session.

Local Open Scope nat_scope.

Implicit Types (w : World) (k : Cont) (o : Outcome) (e : JsError)
  (ev : Event) (evs : list Event).

(** ** Who issues which call *)

(** Resuming a suspended handler issues no [evolve] call. *)
Lemma evolve_calls_resume k o w w' :
  resume k o w = Some w' → evolve_calls w' = evolve_calls w.
Proof.
  intros Hr.
  destruct k as [tgt| |pop stats complete|pop stats complete hist| |];
    destruct o as [[]|]; simpl in Hr; simplify_eq;
    first [ apply evolve_calls_reconcile
          | apply evolve_calls_evolveFailed
          | by apply evolve_calls_issue
          | reflexivity ].
Qed.

Lemma evolve_calls_handleStart tgt config w :
  evolve_calls (handleStart tgt config w) = evolve_calls w.
Proof. unfold handleStart. by rewrite evolve_calls_issue. Qed.

Lemma evolve_calls_stopEvolution w :
  evolve_calls (stopEvolution w) = evolve_calls w.
Proof.
  unfold evolve_calls, stopEvolution. cbn [calls setState].
  by rewrite calls_clearRefInterval.
Qed.

Lemma evolve_calls_handleReset w :
  evolve_calls (handleReset w) = evolve_calls w.
Proof.
  unfold handleReset. rewrite evolve_calls_issue by done.
  apply evolve_calls_stopEvolution.
Qed.

Lemma evolve_calls_step w ev :
  evolve_calls (step w ev) =
  evolve_calls w ++
  match ev with
  | TimerFire h =>
      match timers w !! h with Some _ => [ApiEvolve 1] | None => [] end
  | _ => []
  end.
Proof.
  destruct ev as [tgt config| | |h|id o]; cbn [step]; rewrite ?app_nil_r.
  - apply evolve_calls_handleStart.
  - apply evolve_calls_stopEvolution.
  - apply evolve_calls_handleReset.
  - unfold fire. destruct (timers w !! h); [|by rewrite app_nil_r].
    unfold evolveGeneration, evolve_calls. simpl.
    by rewrite List.filter_app.
  - unfold settle. destruct (pending w !! id) as [k|]; [|done].
    destruct (resume k o (forget id w)) as [w'|] eqn:Hr; [|done].
    by rewrite (evolve_calls_resume k o (forget id w) w' Hr).
Qed.

(** X1: an [evolve] call is issued by the firing of a live interval and by
    nothing else, once per firing and always for one generation; a run
    therefore issues at most one per event. *)
Theorem evolve_only_by_live_firing w ev evs :
  evolve_calls (step w ev) =
    evolve_calls w ++
    match ev with
    | TimerFire h =>
        match timers w !! h with Some _ => [ApiEvolve 1] | None => [] end
    | _ => []
    end ∧
  ∃ n, n ≤ length evs ∧
       evolve_calls (run w evs) = evolve_calls w ++ replicate n (ApiEvolve 1).
Proof.
  split; [apply evolve_calls_step|].
  revert w. induction evs as [|ev' evs IH]; intros w.
  - exists 0. split; [done|]. simpl. by rewrite app_nil_r.
  - rewrite run_cons. destruct (IH (step w ev')) as (n & Hn & Hrun).
    rewrite Hrun, evolve_calls_step.
    destruct ev' as [| | |h|]; rewrite ?app_nil_r;
      try (exists n; split; [simpl; lia | done]).
    destruct (timers w !! h).
    + exists (S n). split; [simpl; lia|].
      by rewrite <- app_assoc.
    + exists n. split; [simpl; lia|]. by rewrite app_nil_r.
Qed.

(** ** What raises the running flag and what starts an interval *)

Lemma running_clearRefInterval w :
  isRunning (state (clearRefInterval w)) = isRunning (state w).
Proof. by rewrite state_clearRefInterval. Qed.

Lemma dom_timers_clearRefInterval w :
  dom (timers (clearRefInterval w)) ⊆ dom (timers w).
Proof.
  rewrite timers_clearRefInterval.
  destruct (evolutionIntervalRef w); [|done].
  rewrite dom_delete_L. by apply subseteq_difference_l.
Qed.

Lemma dom_timers_evolveFailed e w :
  dom (timers (evolveFailed e w)) ⊆ dom (timers w).
Proof.
  exact (dom_timers_clearRefInterval (log (ConsoleError "Evolution error:" e) w)).
Qed.

Lemma dom_timers_reconcile pop stats complete hist best w :
  dom (timers (reconcile pop stats complete hist best w)) ⊆ dom (timers w).
Proof.
  unfold reconcile. destruct complete; [|done].
  exact (dom_timers_clearRefInterval
           (log (ConsoleLog "Evolution complete! Stopping...")
              (setState (with_tick pop stats true hist best) w))).
Qed.

Lemma running_evolveFailed e w : isRunning (state (evolveFailed e w)) = false.
Proof. reflexivity. Qed.

(** X2: only the settlement of a pending [initialize] with a population
    raises the running flag or makes an interval live; every other event
    leaves a lowered flag lowered and adds no interval. *)
Theorem only_initialize_starts w ev :
  (∀ id tgt pop, ev = Settle id (Fulfilled (DataInit pop)) →
                 pending w !! id ≠ Some (AwaitInitialize tgt)) →
  (isRunning (state (step w ev)) = true → isRunning (state w) = true) ∧
  dom (timers (step w ev)) ⊆ dom (timers w).
Proof.
  intros Hnot. destruct ev as [tgt config| | |h|id o]; cbn [step].
  - done.
  - unfold stopEvolution. split; [done|]. apply dom_timers_clearRefInterval.
  - unfold handleReset, stopEvolution. split; [done|].
    apply dom_timers_clearRefInterval.
  - unfold fire. by destruct (timers w !! h).
  - unfold settle. destruct (pending w !! id) as [k|] eqn:Hk; [|done].
    destruct (resume k o (forget id w)) as [w'|] eqn:Hr; [|done].
    destruct k as [tgt| |pop stats complete|pop stats complete hist| |];
      destruct o as [[]|]; simpl in Hr; simplify_eq;
      try done;
      try (rewrite running_evolveFailed; split;
           [done | exact (dom_timers_evolveFailed e (forget id w))]).
    + by destruct (Hnot id tgt initial_population eq_refl).
    + rewrite running_reconcile. split.
      * by intros [? _]%andb_prop.
      * exact (dom_timers_reconcile pop stats complete hist b (forget id w)).
Qed.

Lemma only_initialize_starts_witness :
  isRunning (state (step (step runningWorld UserStop) (TimerFire 1))) = false ∧
  dom (timers (step tickedWorld (TimerFire 1))) ⊆ dom (timers tickedWorld).
Proof.
  split.
  - destruct (only_initialize_starts (step runningWorld UserStop) (TimerFire 1))
      as [Hrun _]; [done|].
    destruct (isRunning (state (step (step runningWorld UserStop)
                                  (TimerFire 1)))) eqn:E; [|done].
    by specialize (Hrun eq_refl).
  - by destruct (only_initialize_starts tickedWorld (TimerFire 1)) as [_ Hdom].
Defined.

(** ** The error field *)

Lemma message_or_has_text e fallback :
  fallback ≠ "" → message_or e fallback ≠ "".
Proof.
  intros Hf. unfold message_or. destruct (message e) as [m|]; [|done].
  destruct (String.eqb m "") eqn:E; [done|].
  by apply String.eqb_neq in E.
Qed.

Lemma error_has_text_resume k o w w' :
  error_has_text (state w) → resume k o w = Some w' →
  error_has_text (state w').
Proof.
  unfold error_has_text. intros Hw Hr.
  destruct k as [tgt| |pop stats complete|pop stats complete hist| |];
    destruct o as [[]|]; simpl in Hr; simplify_eq;
    try exact Hw; try done;
    try (simpl; intros [=Hm]; by apply message_or_has_text in Hm);
    try (unfold evolveFailed; simpl; by rewrite state_clearRefInterval).
  unfold reconcile. destruct complete; simpl; [|done].
  by rewrite state_clearRefInterval.
Qed.

Lemma error_has_text_step w ev :
  error_has_text (state w) → error_has_text (state (step w ev)).
Proof.
  intros Hw. destruct ev as [tgt config| | |h|id o]; cbn [step].
  - done.
  - unfold error_has_text, stopEvolution. simpl.
    by rewrite state_clearRefInterval.
  - unfold error_has_text, handleReset, stopEvolution. simpl.
    by rewrite state_clearRefInterval.
  - unfold fire. by destruct (timers w !! h).
  - unfold settle. destruct (pending w !! id) as [k|]; [|done].
    destruct (resume k o (forget id w)) as [w'|] eqn:Hr; [|done].
    by apply (error_has_text_resume k o (forget id w) w').
Qed.

(** X3: in every run from a state whose error field is not the empty
    string, the field never becomes the empty string; so the banner is
    rendered exactly when the field is not null, and with the field's
    text. *)
Theorem error_always_has_text w evs :
  error_has_text (state w) →
  error_has_text (state (run w evs)) ∧
  errorBanner (state (run w evs)) = error (state (run w evs)).
Proof.
  intros Hw.
  assert (error_has_text (state (run w evs))) as Hrun.
  { revert w Hw. induction evs as [|ev evs IH]; intros w Hw; [done|].
    rewrite run_cons. by apply IH, error_has_text_step. }
  split; [exact Hrun|].
  unfold errorBanner, error_has_text in *.
  destruct (error (state (run w evs))) as [m|]; [|done].
  destruct (String.eqb m "") eqn:E; [|done].
  apply String.eqb_eq in E. by subst m.
Qed.

Lemma error_always_has_text_witness :
  let w := run (mount init_world)
             [ UserStart "TO BE" sampleConfig;
               Settle 1 (Rejected {| message := Some "" |}) ] in
  error (state w) = Some "Failed to initialize GA" ∧
  errorBanner (state w) = Some "Failed to initialize GA".
Proof.
  intros w.
  destruct (error_always_has_text (mount init_world)
              [ UserStart "TO BE" sampleConfig;
                Settle 1 (Rejected {| message := Some "" |}) ])
    as [_ Hbanner]; [done|].
  split; [reflexivity|]. unfold w. rewrite Hbanner. reflexivity.
Defined.

(** ** One interval at a time *)

(** X4: in every run from the mounted page in which a start is issued only
    while no interval is live and no start is in flight, at most one
    interval is live, it is the one held in the ref, and no start is in
    flight while it is live. *)
Theorem guarded_runs_keep_one_interval evs :
  guarded (mount init_world) evs →
  let w := run (mount init_world) evs in
  timers_owned w ∧
  size (timers w) ≤ 1 ∧
  (timers w ≠ ∅ → no_start_pending w).
Proof.
  intros Hg w.
  destruct (one_session_run (mount init_world) evs one_session_mounted Hg)
    as (Hown & Hor & _).
  fold w in Hown, Hor. split_and!.
  - exact Hown.
  - rewrite <- size_dom. unfold timers_owned, ref_handles in Hown.
    apply subseteq_size in Hown.
    destruct (evolutionIntervalRef w).
    + by rewrite size_singleton in Hown.
    + rewrite size_empty in Hown. lia.
  - intros Hne. by destruct Hor.
Qed.

Lemma guarded_runs_keep_one_interval_witness :
  let evs := [ UserStart "TO BE" sampleConfig;
               Settle 1 (Fulfilled (DataInit samplePopulation));
               TimerFire 1; UserStop;
               UserStart "TO BE" sampleConfig;
               Settle 3 (Fulfilled (DataInit samplePopulation));
               Settle 2 (Fulfilled (DataEvolve (sampleEvolve 1 false))) ] in
  guarded (mount init_world) evs ∧
  timers_owned (run (mount init_world) evs) ∧
  size (timers (run (mount init_world) evs)) ≤ 1.
Proof.
  intros evs.
  assert (guarded (mount init_world) evs) as Hg.
  { repeat split; compute_done. }
  split; [exact Hg|].
  destruct (guarded_runs_keep_one_interval evs Hg) as (Hown & Hsize & _).
  split; [exact Hown | exact Hsize].
Defined.

(** ** Overlapping handlers *)

Lemma state_reconcile pop stats complete hist best w :
  state (reconcile pop stats complete hist best w) =
  (if complete then with_not_running else λ st, st)
    (with_tick pop stats complete hist best (state w)).
Proof.
  unfold reconcile. destruct complete; [|done].
  cbn [state setState]. by rewrite state_clearRefInterval.
Qed.

Lemma pending_reconcile pop stats complete hist best w :
  pending (reconcile pop stats complete hist best w) = pending w.
Proof.
  unfold reconcile. destruct complete; [|done].
  cbn [pending setState]. by rewrite pending_clearRefInterval.
Qed.

Lemma pending_stopEvolution w : pending (stopEvolution w) = pending w.
Proof. unfold stopEvolution. cbn. apply pending_clearRefInterval. Qed.

Lemma next_call_stopEvolution w : next_call (stopEvolution w) = next_call w.
Proof.
  unfold stopEvolution, clearRefInterval.
  by destruct (evolutionIntervalRef w).
Qed.

Lemma next_timer_stopEvolution w : next_timer (stopEvolution w) = next_timer w.
Proof.
  unfold stopEvolution, clearRefInterval.
  by destruct (evolutionIntervalRef w).
Qed.

(** X5: the start button stays on show while [initialize] is in flight,
    and when a second start is issued then, each settlement starts an
    interval of its own; the ref keeps the second only, so a later stop
    leaves the first live and it goes on issuing [evolve] calls although
    the running flag is down. *)
Theorem overlapping_starts_leak w t1 c1 t2 c2 p1 p2 :
  isRunning (state w) = false →
  let n := next_call w in
  let nt := next_timer w in
  let w1 := step w (UserStart t1 c1) in
  let w2 := step w1 (UserStart t2 c2) in
  let w3 := step w2 (Settle n (Fulfilled (DataInit p1))) in
  let w4 := step w3 (Settle (S n) (Fulfilled (DataInit p2))) in
  let w5 := step w4 UserStop in
  startShown (appPanelView w1) = true ∧
  evolutionIntervalRef w4 = Some (Pos.succ nt) ∧
  timers w4 !! nt = Some POLL_PERIOD_MS ∧
  evolutionIntervalRef w5 = None ∧
  isRunning (state w5) = false ∧
  timers w5 !! nt = Some POLL_PERIOD_MS ∧
  evolve_calls (step w5 (TimerFire nt)) = evolve_calls w ++ [ApiEvolve 1].
Proof.
  intros Hidle n nt w1 w2 w3 w4 w5.
  assert (w3 = startInterval (setState (with_started t1 p1) (forget n w2)))
    as E3.
  { apply (settle_pending n (AwaitInitialize t1)); [|done].
    unfold w2, w1, n. simpl.
    rewrite lookup_insert_ne by lia. apply lookup_insert_eq. }
  assert (w4 = startInterval (setState (with_started t2 p2) (forget (S n) w3)))
    as E4.
  { apply (settle_pending (S n) (AwaitInitialize t2)); [|done].
    rewrite E3. unfold w2, w1, n. simpl.
    rewrite lookup_delete_ne by lia. apply lookup_insert_eq. }
  assert (evolutionIntervalRef w4 = Some (Pos.succ nt)) as R4
    by (by rewrite E4, E3).
  assert (timers w4 = <[Pos.succ nt := POLL_PERIOD_MS]>
                        (<[nt := POLL_PERIOD_MS]> (timers w))) as T4
    by (by rewrite E4, E3).
  assert (Pos.succ nt ≠ nt) as Hne by (symmetry; apply Pos.succ_discr).
  assert (timers w5 !! nt = Some POLL_PERIOD_MS) as T5.
  { unfold w5. cbn [step]. unfold stopEvolution. cbn [timers setState].
    rewrite timers_clearRefInterval, R4, T4.
    rewrite lookup_delete_ne, lookup_insert_ne by done.
    apply lookup_insert_eq. }
  split_and!.
  - unfold appPanelView, panelView, w1. simpl. by rewrite Hidle.
  - exact R4.
  - rewrite T4, lookup_insert_ne by done. apply lookup_insert_eq.
  - unfold w5. cbn [step]. unfold stopEvolution. apply ref_clearRefInterval.
  - done.
  - exact T5.
  - rewrite evolve_calls_step, T5. f_equal.
    unfold w5, w4, w3, w2, w1. rewrite !evolve_calls_step.
    by rewrite !app_nil_r.
Qed.

Lemma overlapping_starts_leak_witness :
  let w := run (mount init_world)
             [ UserStart "TO BE" sampleConfig;
               UserStart "TO BE" sampleConfig;
               Settle 1 (Fulfilled (DataInit samplePopulation));
               Settle 2 (Fulfilled (DataInit samplePopulation));
               UserStop ] in
  isRunning (state w) = false ∧
  timers w !! 1%positive = Some POLL_PERIOD_MS ∧
  evolve_calls (step w (TimerFire 1)) = [ApiEvolve 1].
Proof.
  intros w.
  destruct (overlapping_starts_leak (mount init_world) "TO BE" sampleConfig
              "TO BE" sampleConfig samplePopulation samplePopulation)
    as (_ & _ & _ & _ & Hrun & Hlive & Hcalls); [reflexivity|].
  split_and!; [exact Hrun | exact Hlive | exact Hcalls].
Defined.

(** X6: a successful start replaces population, generation and target
    only: best-ever, average fitness, history and the completion flag of
    the previous run stay in the state, and on the screen, until the first
    tick is merged. *)
Theorem start_keeps_previous_results w tgt config pop :
  let w2 := step (step w (UserStart tgt config))
              (Settle (next_call w) (Fulfilled (DataInit pop))) in
  bestEver (state w2) = bestEver (state w) ∧
  averageFitness (state w2) = averageFitness (state w) ∧
  history (state w2) = history (state w) ∧
  isComplete (state w2) = isComplete (state w) ∧
  successShown (appPanelView w2) = isComplete (state w) ∧
  stopShown (appPanelView w2) = true ∧
  rightPanel (state w2) =
    Displays pop tgt 0%Q (bestEver (state w)) (averageFitness (state w))
      (isComplete (state w)) (history (state w)).
Proof.
  intros w2. subst w2. cbn [step]. unfold handleStart.
  rewrite (settle_issue _ _ _ (setState (with_error None) w)).
  by split_and!.
Qed.

(** X7: a reset does not cancel a tick in flight.  When the tick's last
    call is answered after the reset has succeeded, its results are merged
    into the cleared state: population, generation, best-ever and history
    are set again while the session stays uninitialized and shows the
    welcome text. *)
Theorem tick_after_reset_refills_state w id pop stats complete hist best p :
  pending w !! id = Some (AwaitBest pop stats complete hist) →
  id ≠ next_call w →
  let w' := run w [ UserReset;
                    Settle (next_call w) (Fulfilled p);
                    Settle id (Fulfilled (DataBest best)) ] in
  population (state w') = pop ∧
  st_generation (state w') = stat_generation stats ∧
  bestEver (state w') = Some best ∧
  history (state w') = hist ∧
  isComplete (state w') = complete ∧
  isInitialized (state w') = false ∧
  isRunning (state w') = false ∧
  rightPanel (state w') = Welcome.
Proof.
  intros Hk Hne w'.
  assert (w' = reconcile pop stats complete hist best
                 (forget id (setState (λ _, initialState)
                               (forget (next_call w) (handleReset w))))) as E.
  { unfold w'. cbn [run foldl step].
    assert (settle (next_call w) (Fulfilled p) (handleReset w) =
            setState (λ _, initialState) (forget (next_call w) (handleReset w)))
      as ->.
    { apply (settle_pending (next_call w) AwaitReset); [|done].
      unfold handleReset, issue. cbn [pending].
      rewrite next_call_stopEvolution. apply lookup_insert_eq. }
    apply (settle_pending id (AwaitBest pop stats complete hist)); [|done].
    unfold handleReset, issue, forget, setState. cbn [pending].
    rewrite next_call_stopEvolution, pending_stopEvolution.
    rewrite lookup_delete_ne, lookup_insert_ne by done. exact Hk. }
  rewrite E, state_reconcile. by destruct complete.
Qed.

Lemma tick_after_reset_refills_state_witness :
  let w := step completingWorld UserStop in
  let w' := run w [ UserReset;
                    Settle (next_call w) (Fulfilled DataNone);
                    Settle 4 (Fulfilled (DataBest sampleBest)) ] in
  population (state w') = [sampleBest] ∧
  isInitialized (state w') = false ∧
  rightPanel (state w') = Welcome.
Proof.
  intros w w'.
  destruct (tick_after_reset_refills_state w 4
              [sampleBest] (sampleStats 42) true sampleHistory sampleBest
              DataNone)
    as (Hp & _ & _ & _ & _ & Hi & _ & Hv);
    [ by vm_compute | by vm_compute | ].
  split_and!; [exact Hp | exact Hi | exact Hv].
Defined.

(** X8: when two ticks are in flight, the state shows the results of the
    one whose last call is answered last, whatever the order in which the
    ticks were started; nothing of the other remains except that a
    completion it reported keeps the running flag down. *)
Theorem later_settlement_wins w i j pi si ci hi bi pj sj cj hj bj :
  pending w !! i = Some (AwaitBest pi si ci hi) →
  pending w !! j = Some (AwaitBest pj sj cj hj) →
  i ≠ j →
  let w' := run w [ Settle i (Fulfilled (DataBest bi));
                    Settle j (Fulfilled (DataBest bj)) ] in
  population (state w') = pj ∧
  st_generation (state w') = stat_generation sj ∧
  averageFitness (state w') = stat_avg_fitness sj ∧
  bestEver (state w') = Some bj ∧
  history (state w') = hj ∧
  isComplete (state w') = cj ∧
  isRunning (state w') = isRunning (state w) && negb ci && negb cj.
Proof.
  intros Hi Hj Hne w'.
  assert (w' = reconcile pj sj cj hj bj
                 (forget j (reconcile pi si ci hi bi (forget i w)))) as E.
  { unfold w'. cbn [run foldl step].
    rewrite (settle_pending i (AwaitBest pi si ci hi) _ w
               (reconcile pi si ci hi bi (forget i w))) by done.
    apply (settle_pending j (AwaitBest pj sj cj hj)); [|done].
    rewrite pending_reconcile. cbn [pending forget].
    by rewrite lookup_delete_ne. }
  rewrite E, !state_reconcile. cbn [state forget].
  rewrite state_reconcile. cbn [state forget].
  by destruct ci, cj; split_and!; try done; simpl; rewrite ?andb_true_r,
    ?andb_false_r.
Qed.

Lemma later_settlement_wins_witness :
  let w := run runningWorld
             [ TimerFire 1;
               Settle 3 (Fulfilled (DataEvolve (sampleEvolve 2 false)));
               Settle 2 (Fulfilled (DataEvolve (sampleEvolve 1 false)));
               Settle 4 (Fulfilled (DataHistory sampleHistory));
               Settle 5 (Fulfilled (DataHistory sampleHistory)) ] in
  let w' := run w [ Settle 6 (Fulfilled (DataBest sampleBest));
                    Settle 7 (Fulfilled (DataBest sampleBest)) ] in
  st_generation (state w') = 1%Q.
Proof.
  intros w w'.
  destruct (later_settlement_wins w 6 7
              [sampleBest] (sampleStats 2) false sampleHistory sampleBest
              [sampleBest] (sampleStats 1) false sampleHistory sampleBest)
    as (_ & Hg & _); [by vm_compute | by vm_compute | done |].
  exact Hg.
Defined.

(** X9: a reset issued while a start is still awaiting [initialize] does
    not stop the session that start creates: when [initialize] and then
    the remote reset succeed, the state is the initial one, yet the
    interval is live and held in the ref and goes on issuing [evolve]
    calls. *)
Theorem reset_during_start_leaves_loop w tgt config pop p :
  isRunning (state w) = false →
  let n := next_call w in
  let w1 := step w (UserStart tgt config) in
  let w2 := step w1 UserReset in
  let w3 := step w2 (Settle n (Fulfilled (DataInit pop))) in
  let w4 := step w3 (Settle (S n) (Fulfilled p)) in
  resetDisabled (appPanelView w1) = false ∧
  state w4 = initialState ∧
  evolutionIntervalRef w4 = Some (next_timer w) ∧
  timers w4 !! next_timer w = Some POLL_PERIOD_MS ∧
  evolve_calls (step w4 (TimerFire (next_timer w))) =
    evolve_calls w ++ [ApiEvolve 1].
Proof.
  intros Hidle n w1 w2 w3 w4.
  assert (pending w2 = <[S n := AwaitReset]>
                         (<[n := AwaitInitialize tgt]> (pending w))) as P2.
  { unfold w2, w1. cbn [step]. unfold handleReset, issue. cbn [pending].
    rewrite next_call_stopEvolution, pending_stopEvolution. done. }
  assert (next_timer w2 = next_timer w) as N2.
  { unfold w2, w1. cbn [step]. unfold handleReset, issue. cbn [next_timer].
    by rewrite next_timer_stopEvolution. }
  assert (w3 = startInterval (setState (with_started tgt pop) (forget n w2)))
    as E3.
  { apply (settle_pending n (AwaitInitialize tgt)); [|done].
    rewrite P2, lookup_insert_ne by lia. apply lookup_insert_eq. }
  assert (w4 = setState (λ _, initialState) (forget (S n) w3)) as E4.
  { apply (settle_pending (S n) AwaitReset); [|done].
    rewrite E3. cbn [pending startInterval setState forget].
    rewrite P2, lookup_delete_ne by lia. apply lookup_insert_eq. }
  assert (timers w4 !! next_timer w = Some POLL_PERIOD_MS) as T4.
  { rewrite E4, E3. cbn [timers next_timer startInterval setState forget].
    rewrite N2. apply lookup_insert_eq. }
  split_and!.
  - unfold appPanelView, panelView, w1. simpl. exact Hidle.
  - by rewrite E4.
  - rewrite E4, E3.
    cbn [evolutionIntervalRef next_timer startInterval setState forget].
    by rewrite N2.
  - exact T4.
  - rewrite evolve_calls_step, T4. f_equal.
    unfold w4, w3, w2, w1. rewrite !evolve_calls_step.
    by rewrite !app_nil_r.
Qed.

Lemma reset_during_start_leaves_loop_witness :
  let w4 := run (mount init_world)
              [ UserStart "TO BE" sampleConfig; UserReset;
                Settle 1 (Fulfilled (DataInit samplePopulation));
                Settle 2 (Fulfilled DataNone) ] in
  state w4 = initialState ∧
  timers w4 !! 1%positive = Some POLL_PERIOD_MS ∧
  evolve_calls (step w4 (TimerFire 1)) = [ApiEvolve 1].
Proof.
  intros w4.
  destruct (reset_during_start_leaves_loop (mount init_world) "TO BE"
              sampleConfig samplePopulation DataNone)
    as (_ & Hs & _ & Ht & Hc); [reflexivity|].
  split_and!; [exact Hs | exact Ht | exact Hc].
Defined.

(** ** Unmounting and the health check *)

(** X10: the cleanup run on unmount cancels the interval of the ref and
    changes neither the state nor the ref; with that interval the
    session's only one and no start in flight, no [evolve] call is issued
    afterwards. *)
Theorem unmount_stops_polling w evs :
  timers_owned w →
  no_start_pending w →
  Forall system_event evs →
  state (unmount w) = state w ∧
  evolutionIntervalRef (unmount w) = evolutionIntervalRef w ∧
  timers (unmount w) = ∅ ∧
  evolve_calls (run (unmount w) evs) = evolve_calls w.
Proof.
  intros Hown Hns Hevs.
  assert (timers (unmount w) = timers (clearRefInterval w)) as Ht
    by (unfold unmount, clearRefInterval; by destruct (evolutionIntervalRef w)).
  assert (timers (unmount w) = ∅) as Hnone
    by (rewrite Ht; by apply timers_owned_cleared).
  assert (quiet (unmount w)) as Hq.
  { split; [done|]. unfold no_start_pending, unmount.
    by destruct (evolutionIntervalRef w). }
  destruct (quiet_run (unmount w) evs Hq Hevs) as (_ & Hc & _).
  split_and!.
  - unfold unmount. by destruct (evolutionIntervalRef w).
  - unfold unmount. by destruct (evolutionIntervalRef w) eqn:E.
  - exact Hnone.
  - rewrite Hc. unfold evolve_calls, unmount.
    by destruct (evolutionIntervalRef w).
Qed.

Lemma unmount_stops_polling_witness :
  timers (unmount runningWorld) = ∅ ∧
  evolve_calls (run (unmount runningWorld) laterEvents) =
    evolve_calls runningWorld.
Proof.
  destruct (unmount_stops_polling runningWorld laterEvents)
    as (_ & _ & Ht & Hc);
    [ compute_done | compute_done | repeat constructor | ].
  split; [exact Ht | exact Hc].
Defined.

(** X11: a failed health check only sets the error to the fixed
    connection text, whatever the failure carried: flags, intervals, ref
    and call log are untouched, the banner shows that text, and the next
    start clears it at once.  A successful health check changes no
    state. *)
Theorem health_failure_only_sets_error w id e p tgt config :
  pending w !! id = Some AwaitHealth →
  let ko := step w (Settle id (Rejected e)) in
  let ok := step w (Settle id (Fulfilled p)) in
  state ko = with_error (Some HEALTH_ERROR) (state w) ∧
  errorBanner (state ko) = Some HEALTH_ERROR ∧
  timers ko = timers w ∧
  evolutionIntervalRef ko = evolutionIntervalRef w ∧
  calls ko = calls w ∧
  error (state (step ko (UserStart tgt config))) = None ∧
  state ok = state w.
Proof.
  intros Hk ko ok.
  assert (ko = setState (with_error (Some HEALTH_ERROR))
                 (log (ConsoleError "API health check failed:" e)
                    (forget id w))) as Eko
    by (by apply (settle_pending id AwaitHealth)).
  assert (ok = log (ConsoleLog "API is healthy") (forget id w)) as Eok
    by (by apply (settle_pending id AwaitHealth)).
  rewrite Eko, Eok. by split_and!.
Qed.

Lemma health_failure_only_sets_error_witness :
  let ko := step (mount init_world) (Settle 0 (Rejected networkError)) in
  errorBanner (state ko) = Some HEALTH_ERROR ∧
  calls ko = [ApiHealthCheck].
Proof.
  intros ko.
  destruct (health_failure_only_sets_error (mount init_world) 0 networkError
              DataNone "TO BE" sampleConfig)
    as (_ & Hb & _ & _ & Hc & _); [reflexivity|].
  split; [exact Hb | exact Hc].
Defined.

(** ** The order of a tick's calls under any interleaving *)

Lemma awaiting_issue_le f c k w :
  awaiting f (issue c k w) ≤ awaiting f w + (if f k then 1 else 0).
Proof.
  unfold awaiting. cbn [pending issue].
  rewrite map_filter_insert. case_decide as Hf; cbn [snd] in Hf.
  - rewrite Hf, map_size_insert.
    destruct (filter _ (pending w) !! next_call w); simpl; lia.
  - rewrite map_filter_delete.
    etrans; [apply map_subseteq_size, delete_subseteq | lia].
Qed.

Lemma awaiting_forget_le f id w : awaiting f (forget id w) ≤ awaiting f w.
Proof.
  unfold awaiting. cbn [pending forget]. rewrite map_filter_delete.
  apply map_subseteq_size, delete_subseteq.
Qed.

Lemma awaiting_forget_true f id k w :
  pending w !! id = Some k → f k = true →
  S (awaiting f (forget id w)) = awaiting f w.
Proof.
  intros Hk Hf. unfold awaiting. cbn [pending forget].
  rewrite map_filter_delete.
  assert (filter (λ kv : nat * Cont, f kv.2 = true) (pending w) !! id = Some k)
    as Hin by (by apply map_lookup_filter_Some_2).
  rewrite map_size_delete, Hin.
  assert (size (filter (λ kv : nat * Cont, f kv.2 = true) (pending w)) ≠ 0)
    as Hpos by (apply map_size_ne_0_lookup_2 with id; by eexists).
  simpl. lia.
Qed.

Lemma awaiting_clearRefInterval f w :
  awaiting f (clearRefInterval w) = awaiting f w.
Proof. unfold awaiting. by rewrite pending_clearRefInterval. Qed.

Lemma call_count_issue f c k w :
  call_count f (issue c k w) = call_count f w + (if f c then 1 else 0).
Proof.
  unfold call_count. cbn [calls issue].
  rewrite List.filter_app, length_app. simpl. by destruct (f c).
Qed.

Lemma call_count_clearRefInterval f w :
  call_count f (clearRefInterval w) = call_count f w.
Proof. unfold call_count. by rewrite calls_clearRefInterval. Qed.

Lemma calls_in_order_frame w w' :
  pending w' = pending w → calls w' = calls w →
  calls_in_order w → calls_in_order w'.
Proof.
  unfold calls_in_order, call_count, awaiting. by intros -> ->.
Qed.

(** Issuing a call that is neither [evolve], [getHistory] nor [getBest],
    awaited by a handler that is not a tick's, keeps the order. *)
Lemma calls_in_order_issue_other c k w :
  is_evolve c = false → is_history c = false → is_best c = false →
  is_await_evolve k = false → is_await_history k = false →
  calls_in_order w → calls_in_order (issue c k w).
Proof.
  intros Hc1 Hc2 Hc3 Hk1 Hk2 [H1 H2]. unfold calls_in_order.
  rewrite !call_count_issue, Hc1, Hc2, Hc3.
  pose proof (awaiting_issue_le is_await_evolve c k w) as Ha1.
  pose proof (awaiting_issue_le is_await_history c k w) as Ha2.
  rewrite Hk1 in Ha1. rewrite Hk2 in Ha2. lia.
Qed.

Lemma calls_in_order_forget id w :
  calls_in_order w → calls_in_order (forget id w).
Proof.
  intros [H1 H2]. unfold calls_in_order.
  pose proof (awaiting_forget_le is_await_evolve id w).
  pose proof (awaiting_forget_le is_await_history id w).
  change (call_count is_history (forget id w)) with (call_count is_history w).
  change (call_count is_evolve (forget id w)) with (call_count is_evolve w).
  change (call_count is_best (forget id w)) with (call_count is_best w).
  lia.
Qed.

Lemma calls_in_order_reconcile pop stats complete hist best w :
  calls_in_order w → calls_in_order (reconcile pop stats complete hist best w).
Proof.
  apply calls_in_order_frame; [apply pending_reconcile|].
  unfold reconcile. destruct complete; [|done].
  cbn [calls setState]. by rewrite calls_clearRefInterval.
Qed.

Lemma calls_in_order_evolveFailed e w :
  calls_in_order w → calls_in_order (evolveFailed e w).
Proof.
  apply calls_in_order_frame; unfold evolveFailed.
  - cbn [pending setState]. by rewrite pending_clearRefInterval.
  - cbn [calls setState]. by rewrite calls_clearRefInterval.
Qed.

Lemma calls_in_order_resume id k o w w' :
  calls_in_order w → pending w !! id = Some k →
  resume k o (forget id w) = Some w' → calls_in_order w'.
Proof.
  intros Hw Hk Hr.
  pose proof (calls_in_order_forget id w Hw) as Hf.
  destruct k as [tgt| |pop stats complete|pop stats complete hist| |];
    destruct o as [[]|]; simpl in Hr; simplify_eq;
    try exact Hf;
    try (by apply calls_in_order_reconcile);
    try (by apply calls_in_order_evolveFailed).
  - (* the answer to [evolve]: [getHistory] is issued *)
    destruct Hw as [H1 H2]. unfold calls_in_order.
    rewrite !call_count_issue. simpl.
    pose proof (awaiting_forget_true is_await_evolve id AwaitEvolve w Hk
                  eq_refl) as Hd.
    pose proof (awaiting_issue_le is_await_evolve ApiGetHistory
                  (AwaitHistory (top_individuals d) (statistics d)
                     (is_complete d)) (forget id w)) as Ha1.
    pose proof (awaiting_issue_le is_await_history ApiGetHistory
                  (AwaitHistory (top_individuals d) (statistics d)
                     (is_complete d)) (forget id w)) as Ha2.
    pose proof (awaiting_forget_le is_await_history id w) as Hl.
    simpl in Ha1, Ha2.
    change (call_count is_history (forget id w)) with (call_count is_history w).
    change (call_count is_evolve (forget id w)) with (call_count is_evolve w).
    change (call_count is_best (forget id w)) with (call_count is_best w).
    lia.
  - (* the answer to [getHistory]: [getBest] is issued *)
    destruct Hw as [H1 H2]. unfold calls_in_order.
    rewrite !call_count_issue. simpl.
    pose proof (awaiting_forget_true is_await_history id
                  (AwaitHistory pop stats complete) w Hk eq_refl) as Hd.
    pose proof (awaiting_issue_le is_await_evolve ApiGetBest
                  (AwaitBest pop stats complete h) (forget id w)) as Ha1.
    pose proof (awaiting_issue_le is_await_history ApiGetBest
                  (AwaitBest pop stats complete h) (forget id w)) as Ha2.
    pose proof (awaiting_forget_le is_await_evolve id w) as Hl.
    simpl in Ha1, Ha2.
    change (call_count is_history (forget id w)) with (call_count is_history w).
    change (call_count is_evolve (forget id w)) with (call_count is_evolve w).
    change (call_count is_best (forget id w)) with (call_count is_best w).
    lia.
Qed.

Lemma calls_in_order_stopEvolution w :
  calls_in_order w → calls_in_order (stopEvolution w).
Proof.
  apply calls_in_order_frame.
  - apply pending_stopEvolution.
  - unfold stopEvolution. cbn [calls setState]. apply calls_clearRefInterval.
Qed.

Lemma calls_in_order_step w ev :
  calls_in_order w → calls_in_order (step w ev).
Proof.
  intros Hw. destruct ev as [tgt config| | |h|id o]; cbn [step].
  - unfold handleStart. by apply calls_in_order_issue_other.
  - by apply calls_in_order_stopEvolution.
  - unfold handleReset.
    by apply calls_in_order_issue_other, calls_in_order_stopEvolution.
  - unfold fire. destruct (timers w !! h); [|done].
    destruct Hw as [H1 H2]. unfold evolveGeneration, calls_in_order.
    rewrite !call_count_issue. simpl.
    pose proof (awaiting_issue_le is_await_evolve (ApiEvolve 1) AwaitEvolve w).
    pose proof (awaiting_issue_le is_await_history (ApiEvolve 1) AwaitEvolve w).
    simpl in *. lia.
  - unfold settle. destruct (pending w !! id) as [k|] eqn:Hk; [|done].
    destruct (resume k o (forget id w)) as [w'|] eqn:Hr; [|done].
    by apply (calls_in_order_resume id k o w w').
Qed.

(** X12: however firings and settlements interleave, the log never holds
    more [getHistory] calls than [evolve] calls, nor more [getBest] calls
    than [getHistory] calls: each follow-up call of a tick is issued only
    on the answer to the call before it. *)
Theorem tick_calls_stay_in_order w evs :
  calls_in_order w →
  calls_in_order (run w evs) ∧
  call_count is_best (run w evs) ≤ call_count is_history (run w evs) ∧
  call_count is_history (run w evs) ≤ call_count is_evolve (run w evs).
Proof.
  intros Hw.
  assert (calls_in_order (run w evs)) as Hrun.
  { revert w Hw. induction evs as [|ev evs IH]; intros w Hw; [done|].
    rewrite run_cons. by apply IH, calls_in_order_step. }
  split; [exact Hrun|]. destruct Hrun as [H1 H2]. lia.
Qed.

Lemma tick_calls_stay_in_order_witness :
  let evs := [ UserStart "TO BE" sampleConfig;
               Settle 1 (Fulfilled (DataInit samplePopulation));
               TimerFire 1; TimerFire 1;
               Settle 3 (Fulfilled (DataEvolve (sampleEvolve 2 false)));
               Settle 2 (Rejected networkError) ] in
  calls_in_order (mount init_world) ∧
  call_count is_best (run (mount init_world) evs)
    ≤ call_count is_history (run (mount init_world) evs) ∧
  call_count is_history (run (mount init_world) evs)
    ≤ call_count is_evolve (run (mount init_world) evs).
Proof.
  intros evs.
  assert (calls_in_order (mount init_world)) as H0
    by (split; vm_compute; lia).
  split; [exact H0|].
  destruct (tick_calls_stay_in_order (mount init_world) evs H0)
    as (_ & Hb & Hh).
  split; [exact Hb | exact Hh].
Defined.

End Session.

(** * Further properties of the fitness chart *)

Section Plot.

Local Open Scope Q_scope.

Implicit Types (c : Canvas) (p q : HistoryEntry) (data : list HistoryEntry).

Lemma maxGen_positive data : 0 < maxGen data.
Proof. pose proof (maxGen_ge_1 data). lra. Qed.

Lemma generation_le_maxGen p rest q :
  In q (p :: rest) → generation q <= maxGen (p :: rest).
Proof.
  intros Hq. pose proof (maxGen_upper_bound p rest) as Hub.
  rewrite List.Forall_forall in Hub. by apply Hub.
Qed.

(** The fraction of the plot width a point is moved to the right. *)
Lemma fraction_bounds p rest q :
  In q (p :: rest) → 0 <= generation q →
  0 <= generation q / maxGen (p :: rest) <= 1.
Proof.
  intros Hq H0. pose proof (maxGen_positive (p :: rest)) as Hpos.
  pose proof (generation_le_maxGen p rest q Hq) as Hle. split.
  - apply Qle_shift_div_l; [done|]. lra.
  - apply Qle_shift_div_r; [done|]. lra.
Qed.

(** X13: with a canvas at least two margins wide and high, every point of
    a history with non-negative generations and fitness between 0 and 1
    is plotted inside the plot area, on both series. *)
Theorem points_inside_plot_area c p rest q :
  2 * padding <= width c →
  2 * padding <= height c →
  In q (p :: rest) →
  0 <= generation q →
  0 <= best_fitness q <= 1 →
  0 <= avg_fitness q <= 1 →
  padding <= plotX c (p :: rest) q <= width c - padding ∧
  padding <= plotY c best_fitness q <= height c - padding ∧
  padding <= plotY c avg_fitness q <= height c - padding.
Proof.
  intros Hw Hh Hq Hgen Hbest Havg.
  destruct (fraction_bounds p rest q Hq Hgen) as [Hr0 Hr1].
  unfold plotX, plotY, yScale.
  set (r := generation q / maxGen (p :: rest)) in *.
  split_and!; nra.
Qed.

Lemma points_inside_plot_area_witness :
  let q := {| generation := 1; best_fitness := 3 # 5; avg_fitness := 2 # 5 |} in
  padding <= plotX chartCanvas sampleHistory q <= width chartCanvas - padding ∧
  padding <= plotY chartCanvas best_fitness q <= height chartCanvas - padding.
Proof.
  intros q.
  destruct (points_inside_plot_area chartCanvas q (tl sampleHistory) q)
    as (Hx & Hy & _);
    [ by vm_compute | by vm_compute | by left | by vm_compute
    | split; by vm_compute | split; by vm_compute | ].
  split; [exact Hx | exact Hy].
Defined.

(** The x coordinate is the left margin plus the generation times the
    width of the plot area per generation. *)
Lemma plotX_affine c data q :
  plotX c data q ==
  padding + generation q * ((width c - 2 * padding) / maxGen data).
Proof. unfold plotX. field. apply maxGen_nonzero. Qed.

Lemma x_step_nonneg c data :
  2 * padding <= width c → 0 <= (width c - 2 * padding) / maxGen data.
Proof.
  intros Hw. apply Qle_shift_div_l; [apply maxGen_positive | lra].
Qed.

Lemma x_step_positive c data :
  2 * padding < width c → 0 < (width c - 2 * padding) / maxGen data.
Proof.
  intros Hw. apply Qlt_shift_div_l; [apply maxGen_positive | lra].
Qed.

(** X14: on a canvas at least two margins wide the x coordinate grows
    with the generation: between any two points it differs by the
    difference of their generations times a fixed non-negative step, so a
    later generation is never plotted left of an earlier one, and is
    plotted to its right when the canvas is wider than two margins.  A
    point whose generation is the largest of the data and at least 1 is
    plotted on the right margin. *)
Theorem x_grows_with_generation c data :
  2 * padding <= width c →
  (∀ q1 q2,
     plotX c data q2 - plotX c data q1 ==
     (generation q2 - generation q1)
     * ((width c - 2 * padding) / maxGen data)) ∧
  0 <= (width c - 2 * padding) / maxGen data ∧
  (∀ q1 q2, generation q1 <= generation q2 →
            plotX c data q1 <= plotX c data q2) ∧
  (2 * padding < width c →
   ∀ q1 q2, generation q1 < generation q2 →
            plotX c data q1 < plotX c data q2) ∧
  (∀ q, In q data →
        (∀ r, In r data → generation r <= generation q) →
        1 <= generation q →
        plotX c data q == width c - padding).
Proof.
  intros Hw. pose proof (x_step_nonneg c data Hw) as Hstep.
  set (k := (width c - 2 * padding) / maxGen data) in *.
  split_and!.
  - intros q1 q2. rewrite !plotX_affine. fold k. ring.
  - exact Hstep.
  - intros q1 q2 Hle. rewrite !plotX_affine. fold k. nra.
  - intros Hwide q1 q2 Hlt. rewrite !plotX_affine. fold k.
    pose proof (x_step_positive c data Hwide) as Hpos. fold k in Hpos. nra.
  - intros q Hq Hmax H1.
    destruct data as [|p rest]; [done|].
    pose proof (maxGen_positive (p :: rest)) as Hpos.
    assert (maxGen (p :: rest) == generation q) as HM.
    { pose proof (generation_le_maxGen p rest q Hq) as Hub.
      destruct (maxGen_attained p rest) as [Hone|Hex].
      - lra.
      - apply List.Exists_exists in Hex as (r & Hr & Hgen).
        specialize (Hmax r Hr). lra. }
    unfold plotX. rewrite HM. field. lra.
Qed.

Lemma x_grows_with_generation_witness :
  let q1 := {| generation := 1; best_fitness := 3 # 5; avg_fitness := 2 # 5 |} in
  let q2 := {| generation := 2; best_fitness := 1; avg_fitness := 1 # 2 |} in
  plotX chartCanvas sampleHistory q1 < plotX chartCanvas sampleHistory q2 ∧
  plotX chartCanvas sampleHistory q2 == 760.
Proof.
  intros q1 q2.
  destruct (x_grows_with_generation chartCanvas sampleHistory)
    as (_ & _ & _ & Hstrict & Hright); [by vm_compute|].
  split.
  - apply Hstrict; by vm_compute.
  - rewrite (Hright q2); [by vm_compute | by right; left | | by vm_compute].
    intros r [<-|[<-|[]]]; by vm_compute.
Defined.

Lemma polyline_started c data f todo :
  polyline c data f true todo =
  map (λ q, LineTo (plotX c data q) (plotY c f q)) todo.
Proof.
  induction todo as [|q todo IH]; [done|]. simpl. by rewrite IH.
Qed.

(** X15: a series is drawn as one [moveTo] to the first point followed by
    one [lineTo] to each further point, in the order of the data, none
    skipped or repeated; both series of the chart have this shape. *)
Theorem series_connect_points_in_order c p rest :
  let line f :=
    MoveTo (plotX c (p :: rest) p) (plotY c f p)
    :: map (λ q, LineTo (plotX c (p :: rest) q) (plotY c f q)) rest in
  polyline c (p :: rest) best_fitness false (p :: rest) = line best_fitness ∧
  polyline c (p :: rest) avg_fitness false (p :: rest) = line avg_fitness ∧
  (context2d c = true →
   ∃ pre mid post,
     drawChart (Some c) (p :: rest) =
     pre ++ line best_fitness ++ mid ++ line avg_fitness ++ post).
Proof.
  intros line. split_and!.
  - simpl. by rewrite polyline_started.
  - simpl. by rewrite polyline_started.
  - intros Hctx.
    exists ([ FillStyle "#ffffff"; FillRect 0 0 (width c) (height c);
              StrokeStyle "#e0e0e0"; LineWidth 1 ]
            ++ flat_map (gridBand c) (seq 0 11)
            ++ [ StrokeStyle "#333"; LineWidth 2; BeginPath;
                 MoveTo padding (height c - padding);
                 LineTo (width c - padding) (height c - padding); Stroke;
                 BeginPath; MoveTo padding padding;
                 LineTo padding (height c - padding); Stroke ]
            ++ [ StrokeStyle "#4CAF50"; LineWidth 2; BeginPath ]).
    exists [ Stroke; StrokeStyle "#2196F3"; LineWidth 2; BeginPath ].
    exists ([ Stroke;
              FillStyle "#4CAF50"; FillRect (width c - 250) 20 15 15;
              FillStyle "#333"; Font "14px Arial"; TextAlign "left";
              FillText (Literal "Best Fitness") (width c - 230) 32;
              FillStyle "#2196F3"; FillRect (width c - 250) 45 15 15;
              FillStyle "#333";
              FillText (Literal "Average Fitness") (width c - 230) 57;
              FillStyle "#666"; Font "12px Arial"; TextAlign "center" ]
            ++ flat_map (xLabel c (p :: rest)) (seq 0 6)
            ++ [ FillStyle "#333"; Font "bold 16px Arial"; TextAlign "center";
                 FillText (Literal "Fitness Progress") (width c / 2) 20 ]).
    unfold drawChart. rewrite Hctx. unfold render.
    cbn [polyline]. rewrite !polyline_started.
    rewrite <- !app_assoc. reflexivity.
Qed.

Lemma series_connect_points_in_order_witness :
  context2d chartCanvas = true ∧
  polyline chartCanvas sampleHistory best_fitness false sampleHistory =
    [ MoveTo (plotX chartCanvas sampleHistory
                {| generation := 1; best_fitness := 3 # 5;
                   avg_fitness := 2 # 5 |}) (plotY chartCanvas best_fitness
                {| generation := 1; best_fitness := 3 # 5;
                   avg_fitness := 2 # 5 |});
      LineTo (plotX chartCanvas sampleHistory
                {| generation := 2; best_fitness := 1; avg_fitness := 1 # 2 |})
             (plotY chartCanvas best_fitness
                {| generation := 2; best_fitness := 1; avg_fitness := 1 # 2 |}) ] ∧
  ∃ pre mid post,
    drawChart (Some chartCanvas) sampleHistory =
    pre ++ polyline chartCanvas sampleHistory best_fitness false sampleHistory
        ++ mid
        ++ polyline chartCanvas sampleHistory avg_fitness false sampleHistory
        ++ post.
Proof.
  split; [reflexivity|].
  destruct (series_connect_points_in_order chartCanvas
              {| generation := 1; best_fitness := 3 # 5; avg_fitness := 2 # 5 |}
              [ {| generation := 2; best_fitness := 1; avg_fitness := 1 # 2 |} ])
    as (Hbest & Havg & Hdraw).
  split; [exact Hbest|].
  destruct (Hdraw eq_refl) as (pre & mid & post & Heq).
  exists pre, mid, post. exact Heq.
Defined.

(** X16: the horizontal grid line labelled k% lies where a fitness of
    k/100 is plotted, for each of the eleven lines. *)
Theorem grid_line_matches_fitness c i f q :
  f q == inject_Z (100 - Z.of_nat i * 10) / 100 →
  ∃ y,
    gridBand c i =
      [ BeginPath; MoveTo padding y; LineTo (width c - padding) y; Stroke;
        FillStyle "#666"; Font "12px Arial"; TextAlign "right";
        FillText (Percent (100 - Z.of_nat i * 10)) (padding - 10) (y + 4) ] ∧
    plotY c f q == y.
Proof.
  intros Hf. eexists. split; [reflexivity|].
  unfold plotY, yScale. rewrite Hf.
  unfold Z.sub. rewrite inject_Z_plus, inject_Z_opp, inject_Z_mult.
  field.
Qed.

Lemma grid_line_matches_fitness_witness :
  plotY chartCanvas best_fitness
    {| generation := 0; best_fitness := 7 # 10; avg_fitness := 0 |} == 136.
Proof.
  destruct (grid_line_matches_fitness chartCanvas 3 best_fitness
              {| generation := 0; best_fitness := 7 # 10; avg_fitness := 0 |})
    as (y & Hband & Hy); [by vm_compute|].
  rewrite Hy. injection Hband as <-. by vm_compute.
Defined.

(** X17: the i-th of the six labels of the x axis stands where a point of
    generation (i/5)·maxGen is plotted and shows that generation
    truncated to an integer; the first shows 0 on the left margin. *)
Theorem x_label_matches_generation c p rest i q :
  generation q == inject_Z (Z.of_nat i) / 5 * maxGen (p :: rest) →
  ∃ x x0,
    xLabel c (p :: rest) i =
      [ FillText (Digits (Qfloor (generation q))) x (height c - padding + 20) ] ∧
    plotX c (p :: rest) q == x ∧
    xLabel c (p :: rest) 0 =
      [ FillText (Digits 0) x0 (height c - padding + 20) ] ∧
    x0 == padding.
Proof.
  intros Hg.
  exists (padding + inject_Z (Z.of_nat i) / 5 * (width c - 2 * padding)).
  exists (padding + inject_Z (Z.of_nat 0) / 5 * (width c - 2 * padding)).
  split_and!.
  - unfold xLabel. by rewrite <- Hg.
  - unfold plotX. rewrite Hg. field. apply maxGen_nonzero.
  - unfold xLabel.
    assert (inject_Z (Z.of_nat 0) / 5 * maxGen (p :: rest) == 0) as ->
      by (change (inject_Z (Z.of_nat 0)) with 0; field).
    reflexivity.
  - change (inject_Z (Z.of_nat 0)) with 0. field.
Qed.

Lemma x_label_matches_generation_witness :
  let q := {| generation := 2; best_fitness := 1; avg_fitness := 1 # 2 |} in
  plotX chartCanvas sampleHistory q ==
    padding + inject_Z 5 / 5 * (width chartCanvas - 2 * padding) ∧
  Qfloor (generation q) = 2%Z.
Proof.
  intros q.
  destruct (x_label_matches_generation chartCanvas
              {| generation := 1; best_fitness := 3 # 5;
                 avg_fitness := 2 # 5 |} [q] 5 q)
    as (x & x0 & Hlabel & Hx & _); [by vm_compute|].
  injection Hlabel as <-. split; [exact Hx | reflexivity].
Defined.

End Plot.

(** * Properties of the display components and of the remote client *)

Section Components.

Local Open Scope nat_scope.

Implicit Types (tgt individual s : string) (pop : list Individual)
  (w : World).

(** ** The population display *)

Lemma string_length_append s rest :
  String.length (s ++ rest)%string = String.length s + String.length rest.
Proof.
  induction s as [|c s IH]; [done|].
  change (S (String.length (s ++ rest)%string) =
          S (String.length s + String.length rest)).
  by rewrite IH.
Qed.

Lemma string_append_empty s : (s ++ "")%string = s.
Proof.
  induction s as [|c s IH]; [done|].
  change (String c (s ++ "")%string = String c s). by rewrite IH.
Qed.

Lemma matches_at_cons a tgt i c :
  matches_at (String a tgt) (S i) c = matches_at tgt i c.
Proof. reflexivity. Qed.

Lemma highlightFrom_cons a tgt i s :
  highlightFrom (String a tgt) (S i) s = highlightFrom tgt i s.
Proof.
  revert i. induction s as [|c s IH]; intros i; [done|].
  simpl. by rewrite IH.
Qed.

Lemma highlightFrom_past_end tgt i s :
  String.length tgt ≤ i →
  Forall (λ cell, matches cell = false) (highlightFrom tgt i s).
Proof.
  revert tgt i. induction s as [|c s IH]; intros tgt i Hi; [constructor|].
  simpl. constructor.
  - simpl. unfold matches_at.
    destruct (String.get i tgt) as [t|] eqn:E; [|done].
    assert (i < String.length tgt); [|lia].
    clear -E. revert i E. induction tgt as [|a tgt IHt]; intros i E; [done|].
    destruct i; simpl in *; [lia|]. apply IHt in E. lia.
  - apply IH. lia.
Qed.

(** X18: the highlighted cells of an individual spell the individual
    again, one cell per code unit, and all of them are marked as matching
    exactly when the individual is a prefix of the target; for an
    individual as long as the target, exactly when it is the target. *)
Theorem highlight_matches_iff_prefix tgt s :
  map char (highlightDifferences tgt s) = String.list_ascii_of_string s ∧
  length (highlightDifferences tgt s) = String.length s ∧
  (forallb matches (highlightDifferences tgt s) = true ↔
   ∃ rest, tgt = (s ++ rest)%string) ∧
  (String.length s = String.length tgt →
   (forallb matches (highlightDifferences tgt s) = true ↔ s = tgt)).
Proof.
  unfold highlightDifferences.
  assert (∀ tgt, forallb matches (highlightFrom tgt 0 s) = true ↔
                 ∃ rest, tgt = (s ++ rest)%string) as Hprefix.
  { clear tgt. induction s as [|c s IH]; intros tgt.
    - simpl. split; [by exists tgt | done].
    - simpl. destruct tgt as [|a tgt].
      + simpl. split; [done | by intros [rest Hr]].
      + rewrite highlightFrom_cons. unfold matches_at. simpl.
        rewrite andb_true_iff, IH, Ascii.eqb_eq. split.
        * intros [Hc [rest Hr]]. subst c tgt. by exists rest.
        * intros [rest Hr]. simpl in Hr. injection Hr as Ha Ht.
          subst a tgt. split; [done | by exists rest]. }
  split_and!.
  - clear Hprefix. generalize 0.
    induction s as [|c s IH]; intros i; [done|].
    simpl. by rewrite IH.
  - clear Hprefix. generalize 0.
    induction s as [|c s IH]; intros i; [done|].
    simpl. by rewrite IH.
  - apply Hprefix.
  - intros Hlen. rewrite Hprefix. split.
    + intros [rest Hr]. subst tgt. rewrite string_length_append in Hlen.
      destruct rest; [|simpl in Hlen; lia].
      by rewrite string_append_empty.
    + intros Hs. subst tgt. exists ""%string.
      by rewrite string_append_empty.
Qed.

Lemma highlight_matches_iff_prefix_witness :
  forallb matches (highlightDifferences "TO BE" "TO BE") = true ∧
  forallb matches (highlightDifferences "TO BE" "TO BX") = false.
Proof.
  destruct (highlight_matches_iff_prefix "TO BE" "TO BE")
    as (_ & _ & _ & Hsame).
  split; [by apply (Hsame eq_refl) | reflexivity].
Defined.

(** X19: a code unit beyond the end of the target is never marked as
    matching, so an individual longer than the target cannot be shown as
    a full match. *)
Theorem cells_past_target_mismatch tgt s cell i :
  highlightDifferences tgt s !! i = Some cell →
  String.length tgt ≤ i →
  matches cell = false.
Proof.
  unfold highlightDifferences. intros Hcell Hi.
  assert (∀ j k, highlightFrom tgt j s !! k = Some cell →
                 matches cell = matches_at tgt (j + k) (char cell)) as Hat.
  { clear. induction s as [|c s IH]; intros j k Hk; [done|].
    destruct k as [|k]; simpl in Hk.
    - injection Hk as <-. simpl. by rewrite Nat.add_0_r.
    - rewrite (IH (S j) k Hk). f_equal. lia. }
  rewrite (Hat 0 i Hcell). simpl. unfold matches_at.
  destruct (String.get i tgt) as [t|] eqn:E; [|done].
  assert (i < String.length tgt); [|lia].
  clear -E. revert i E. induction tgt as [|a tgt IHt]; intros i E; [done|].
  destruct i; simpl in *; [lia|]. apply IHt in E. lia.
Qed.

Lemma cells_past_target_mismatch_witness :
  ∃ cell, highlightDifferences "TO" "TOO" !! 2 = Some cell ∧
          matches cell = false.
Proof.
  eexists. split; [reflexivity|].
  apply (cells_past_target_mismatch "TO" "TOO" _ 2); [reflexivity | simpl; lia].
Defined.

(** X20: the list shows the first twenty individuals of the population,
    in order and ranked from 1, and marks the first row alone as best;
    individuals from the twenty-first on are not shown. *)
Theorem rows_are_first_twenty tgt pop j :
  populationRows tgt pop !! j =
    (if decide (j < 20) then
       (λ ind : Individual,
          {| rank := j + 1; isBest := j =? 0;
             cells := highlightDifferences tgt (genes ind);
             rowFitness := fitness ind |}) <$> pop !! j
     else None) ∧
  length (populationRows tgt pop) = length pop `min` 20.
Proof.
  unfold populationRows. split.
  - rewrite list_lookup_imap. case_decide as Hj.
    + by rewrite lookup_take_lt.
    + rewrite lookup_take_ge by lia. done.
  - rewrite length_imap, length_take. lia.
Qed.

(** ** The control panel *)

Lemma all_white_space_trimStart s :
  all_white_space (trimStart s) = all_white_space s.
Proof.
  induction s as [|a s IH]; [done|]. simpl.
  destruct (is_white_space a) eqn:E; [done|]. simpl. by rewrite E.
Qed.

Lemma trimEnd_empty_iff s : trimEnd s = "" ↔ all_white_space s = true.
Proof.
  induction s as [|a s IH]; [done|]. simpl.
  destruct (trimEnd s) as [|b r] eqn:E.
  - destruct (is_white_space a); simpl.
    + split; [intros _; by apply IH | done].
    + done.
  - split; [done|]. intros [_ Hs]%andb_prop. by apply IH in Hs.
Qed.

(** [trim] leaves nothing exactly of the strings made of white space. *)
Lemma trim_empty_iff s : trim s = "" ↔ all_white_space s = true.
Proof.
  unfold trim. by rewrite trimEnd_empty_iff, all_white_space_trimStart.
Qed.

(** X21: a click on start with a target that is empty or white space only
    alerts and reaches neither the controller nor the service; with any
    other target the controller issues [initialize] carrying that target
    as it stands, untrimmed, and the four parameters of the panel. *)
Theorem blank_target_is_rejected (toUpperCase : string → string)
    (ps : PanelState) w :
  let tgt := if useCustom ps then toUpperCase (customPhrase ps)
             else targetPhrase ps in
  (all_white_space tgt = true →
   clickStart toUpperCase ps w = (w, Some "Please enter a target phrase")) ∧
  (all_white_space tgt = false →
   ∃ w', clickStart toUpperCase ps w = (w', None) ∧
         calls w' =
           calls w ++ [ApiInitialize
                         {| target := tgt;
                            population_size := populationSize ps;
                            mutation_rate := mutationRate ps;
                            crossover_rate := crossoverRate ps;
                            elitism_count := elitismCount ps |}] ∧
         pending w' !! next_call w = Some (AwaitInitialize tgt)).
Proof.
  intros tgt. unfold clickStart, panelHandleStart. fold tgt.
  split; intros Hws.
  - apply trim_empty_iff in Hws. by rewrite Hws.
  - destruct (String.eqb (trim tgt) "") eqn:E.
    + apply String.eqb_eq, trim_empty_iff in E. congruence.
    + eexists. split; [reflexivity|]. split; [reflexivity|].
      cbn. apply lookup_insert_eq.
Qed.

Lemma blank_target_is_rejected_witness :
  let ps := {| targetPhrase := "TO BE OR NOT TO BE"; useCustom := true;
               customPhrase := "  "; populationSize := 200%Q;
               mutationRate := (1 # 100)%Q; crossoverRate := (4 # 5)%Q;
               elitismCount := 2%Q |} in
  clickStart (λ s, s) ps (mount init_world) =
    (mount init_world, Some "Please enter a target phrase") ∧
  ∃ w', clickStart (λ s, s) panelInitial (mount init_world) = (w', None) ∧
        calls w' =
          [ApiHealthCheck;
           ApiInitialize {| target := "TO BE OR NOT TO BE";
                            population_size := 200%Q;
                            mutation_rate := (1 # 100)%Q;
                            crossover_rate := (4 # 5)%Q;
                            elitism_count := 2%Q |}].
Proof.
  intros ps. split.
  - by apply (blank_target_is_rejected (λ s, s) ps (mount init_world)).
  - destruct (blank_target_is_rejected (λ s, s) panelInitial (mount init_world))
      as [_ Hstart].
    destruct (Hstart eq_refl) as (w' & Hclick & Hcalls & _).
    exists w'. split; [exact Hclick | exact Hcalls].
Defined.

(** X22: each of the five preset quotations passes the guard: in preset
    mode a click on start always reaches the controller, with the quotation
    as the target. *)
Theorem presets_always_start (toUpperCase : string → string)
    (ps : PanelState) :
  useCustom ps = false →
  In (targetPhrase ps) SHAKESPEARE_QUOTES →
  panelHandleStart toUpperCase ps =
    OnStart (targetPhrase ps)
      {| cfg_population_size := populationSize ps;
         cfg_mutation_rate := mutationRate ps;
         cfg_crossover_rate := crossoverRate ps;
         cfg_elitism_count := elitismCount ps |}.
Proof.
  intros Hpreset Hin. unfold panelHandleStart. rewrite Hpreset.
  assert (String.eqb (trim (targetPhrase ps)) "" = false) as ->; [|done].
  unfold SHAKESPEARE_QUOTES in Hin. simpl in Hin.
  destruct Hin as [<-|[<-|[<-|[<-|[<-|[]]]]]]; reflexivity.
Qed.

Lemma presets_always_start_witness :
  panelHandleStart (λ s, s) panelInitial =
    OnStart "TO BE OR NOT TO BE"
      {| cfg_population_size := 200%Q; cfg_mutation_rate := (1 # 100)%Q;
         cfg_crossover_rate := (4 # 5)%Q; cfg_elitism_count := 2%Q |}.
Proof.
  apply (presets_always_start (λ s, s) panelInitial); [reflexivity | by left].
Defined.

(** ** The remote client *)

(** X23: [getPopulation] never asks for zero individuals: an omitted
    count and a count of zero both ask for 50, any other count is sent as
    given.  [evolve] without a payload asks for one generation, which is
    the request every tick of the controller sends. *)
Theorem client_defaults (count : option number) :
  (∃ n, gaAPI.getPopulation count =
          {| method := GET; path := "/population"; data := CountParam n |} ∧
        ¬ (n == 0)%Q ∧
        match count with
        | Some given => if Qeq_bool given 0 then n = 50%Q else n = given
        | None => n = 50%Q
        end) ∧
  gaAPI.evolve None = request_of (ApiEvolve 1) ∧
  data (gaAPI.evolve None) = EvolveBody {| generations := Some 1%Q |}.
Proof.
  split; [|done].
  unfold gaAPI.getPopulation. eexists. split; [reflexivity|].
  destruct count as [given|]; [|done].
  destruct (Qeq_bool given 0) eqn:E; [done|].
  split; [|done]. by apply Qeq_bool_neq.
Qed.

End Components.

